(** * The Koka C runtime object model ([cruntime/include/runtime.h])

    A shallow embedding of the heap-block header, the reference-count fast
    paths, orphan reuse and the boxed vector constructors of [runtime.h],
    together with the properties that the runtime specification states
    about them.

    Memory is a finite map from block addresses to block objects; every
    C function that reads or writes through a [block_t*] becomes a
    computation in a small state-and-failure monad over that map. *)

From Stdlib Require Import ZArith Lia.
From stdpp Require Import base tactics option list gmap.

Local Open Scope Z_scope.

(** ** Machine integers *)

(** Conversion to an unsigned integer type of [bits] bits. *)
Definition wrap (bits x : Z) : Z := x mod 2 ^ bits.

Definition u8 (x : Z) : Z := wrap 8 x.
Definition u16 (x : Z) : Z := wrap 16 x.
Definition u32 (x : Z) : Z := wrap 32 x.

(** The cast [(int32_t)rc] of a [uint32_t], two's complement. *)
Definition as_int32 (rc : Z) : Z := if rc <? 2 ^ 31 then rc else rc - 2 ^ 32.

(** A [uint32_t] value. *)
Definition is_u32 (x : Z) : Prop := 0 <= x < 2 ^ 32.

(** ** Basic datatypes *)

(** A [block_t*]: the address of a heap block. *)
Definition ptr : Type := Z.

(** A [box_t]: one [uintptr_t] word. *)
Definition box_t : Type := Z.

(** [header_t]: the 64-bit header every heap block starts with. *)
Record header_t : Type := Header {
  refcount : Z;          (* uint32_t *)
  tag : Z;               (* uint16_t *)
  scan_fsize : Z;        (* uint8_t *)
  thread_shared : bool   (* uint8_t : 1 *)
}.

Definition SCAN_FSIZE_MAX : Z := 255.

(** [HEADER(scan_fsize,tag)]: start with a reference count of 0. *)
Definition HEADER (fsize tg : Z) : header_t := Header 0 tg fsize false.

(** [memset(&header, 0, sizeof(header_t))]. *)
Definition header_zero : header_t := Header 0 0 0 false.

Definition set_refcount (rc : Z) (h : header_t) : header_t :=
  Header rc (tag h) (scan_fsize h) (thread_shared h).

(** A block in memory: its header followed by word-sized fields.  Storage
    that [malloc] returned and nobody wrote yet holds no value ([None]). *)
Record block_t : Type := Block {
  header : option header_t;
  fields : list (option box_t)
}.

(** Calls that leave [runtime.h]. *)
Inductive call : Type :=
  | call_dup_block_check (b : ptr)
  | call_block_check_free (b : ptr)
  | call_drop_boxed (v : box_t)
  | call_malloc (sz : Z) (p : ptr)
  | call_free (p : ptr).

(** The state the runtime functions act on: the heap, and the calls made so
    far to code outside [runtime.h] (most recent first). *)
Record world : Type := World {
  heap : gmap Z block_t;
  calls : list call
}.

Definition with_heap (f : gmap Z block_t -> gmap Z block_t) (w : world) : world :=
  World (f (heap w)) (calls w).

Definition with_call (c : call) (w : world) : world :=
  World (heap w) (c :: calls w).

(** The world after the block at [b] was overwritten with [blk]. *)
Definition poke (b : ptr) (blk : block_t) (w : world) : world :=
  with_heap <[b := blk]> w.

(** The block at [b] has header [h] and fields [fs]. *)
Definition block_at (w : world) (b : ptr) (h : header_t) (fs : list (option box_t)) : Prop :=
  heap w !! b = Some (Block (Some h) fs).

(** ** The monad of runtime computations *)

Inductive outcome (A : Type) : Type :=
  | Ret (a : A) (w : world)   (* normal return *)
  | Abort                     (* a failed internal assertion: fatal *)
  | Undef.                    (* undefined behaviour *)
Arguments Ret {A} a w.
Arguments Abort {A}.
Arguments Undef {A}.

Definition M (A : Type) : Type := world -> outcome A.

Definition ret {A} (a : A) : M A := fun w => Ret a w.

Definition bind {A B} (m : M A) (k : A -> M B) : M B :=
  fun w => match m w with
           | Ret a w' => k a w'
           | Abort => Abort
           | Undef => Undef
           end.

#[global] Instance M_ret : MRet M := @ret.
#[global] Instance M_bind : MBind M := fun A B k m => bind m k.

Definition abort {A} : M A := fun _ => Abort.
Definition undef {A} : M A := fun _ => Undef.

(** Read [b->header]. *)
Definition load_header (b : ptr) : M header_t :=
  fun w => match heap w !! b with
           | Some (Block (Some h) _) => Ret h w
           | _ => Undef
           end.

(** Write [b->header = h]: undefined where the heap has no block at [b],
    which is also the case of storage too small to hold a header. *)
Definition store_header (b : ptr) (h : header_t) : M unit :=
  fun w => match heap w !! b with
           | Some blk => Ret tt (with_heap <[b := Block (Some h) (fields blk)]> w)
           | None => Undef
           end.

(** Read the [i]-th word after the header of [b]. *)
Definition load_field (b : ptr) (i : nat) : M box_t :=
  fun w => match heap w !! b with
           | Some blk => match fields blk !! i with
                         | Some (Some v) => Ret v w
                         | _ => Undef
                         end
           | None => Undef
           end.

(** Write the [i]-th word after the header of [b]. *)
Definition store_field (b : ptr) (i : nat) (v : box_t) : M unit :=
  fun w => match heap w !! b with
           | Some blk =>
               if decide (i < length (fields blk))%nat
               then Ret tt (with_heap <[b := Block (header blk) (<[i := Some v]> (fields blk))]> w)
               else Undef
           | None => Undef
           end.

(** Let code outside [runtime.h] act on the heap. *)
Definition on_heap (f : gmap Z block_t -> gmap Z block_t) : M unit :=
  fun w => Ret tt (with_heap f w).

(** Record a call to code outside [runtime.h]. *)
Definition log (c : call) : M unit := fun w => Ret tt (with_call c w).

(** Run [m] [n] times. *)
Fixpoint times {A} (n : nat) (m : M A) : M unit :=
  match n with
  | O => ret tt
  | S n' => m ;; times n' m
  end.

(** [for (size_t i = 0; i < count; i++) body(start + i)]. *)
Fixpoint for_range (start count : nat) (body : nat -> M unit) : M unit :=
  match count with
  | O => ret tt
  | S c => body start ;; for_range (S start) c body
  end.

(** The fields after [for (i = 0; i < count; i++) fields[start + i] = x]. *)
Fixpoint filled (start count : nat) (x : option box_t)
    (fs : list (option box_t)) : list (option box_t) :=
  match count with
  | O => fs
  | S c => filled (S start) c x (<[start := x]> fs)
  end.

(** ** Tags for heap blocks: [enum tag_e] *)

Definition TAG_INVALID : Z := 0.
Definition TAG_MIN : Z := 1.
Definition TAG_MAX : Z := 65000.
Definition TAG_OPEN : Z := TAG_MAX + 1.
Definition TAG_BOX : Z := TAG_OPEN + 1.
Definition TAG_REF : Z := TAG_BOX + 1.
Definition TAG_FUNCTION : Z := TAG_REF + 1.
Definition TAG_BIGINT : Z := TAG_FUNCTION + 1.
Definition TAG_STRING_SMALL : Z := TAG_BIGINT + 1.
Definition TAG_STRING : Z := TAG_STRING_SMALL + 1.
Definition TAG_BYTES : Z := TAG_STRING + 1.
Definition TAG_VECTOR_SMALL : Z := TAG_BYTES + 1.
Definition TAG_VECTOR : Z := TAG_VECTOR_SMALL + 1.
Definition TAG_INT64 : Z := TAG_VECTOR + 1.
(* The next three are declared only #if INTPTR_SIZE < 8. *)
Definition TAG_INT32 : Z := TAG_INT64 + 1.
Definition TAG_DOUBLE : Z := TAG_INT32 + 1.
Definition TAG_FLOAT : Z := TAG_DOUBLE + 1.

(** ** Sample inputs *)

Module Sample.

(** A [block_free] that returns the storage and does nothing else. *)
Definition block_free (b : ptr) (hp : gmap Z block_t) : gmap Z block_t :=
  delete b hp.

(** Where the globals [_orphan_null] and [vector_empty] live. *)
Definition orphan_null_addr : ptr := 16.
Definition vector_empty_addr : ptr := 32.

(** A function closure at address 64 holding one boxed pointer. *)
Definition closure (rc : Z) : block_t :=
  Block (Some (Header rc TAG_FUNCTION 1 false)) [Some 128].

(** The boxed value that the closure points to, at address 128. *)
Definition cell : block_t := Block (Some (Header 2 TAG_BOX 0 false)) [Some 7].

(** An empty vector in the large layout, with the count of a static
    block ([HEADER_STATIC]); 3 is the boxed enumeration 0. *)
Definition empty_vector : block_t :=
  Block (Some (Header 0xFF00 TAG_VECTOR 0 false)) [Some 3; Some 3].

(** A heap with the two globals, the closure with count [rc], and the
    cell. *)
Definition world_with (rc : Z) : world :=
  World (<[64 := closure rc]>
           (<[128 := cell]>
              (<[vector_empty_addr := empty_vector]>
                 (<[orphan_null_addr := Block (Some header_zero) []]> ∅))))
        [].

End Sample.

Section Runtime.

(** *** What [runtime.h] takes from the rest of the runtime *)

(** [INTPTR_SIZE] of [runtime/platform.h]: the size of a pointer in bytes. *)
Variable INTPTR_SIZE : Z.

(** Whether [assert_internal] of [runtime/platform.h] is compiled in. *)
Variable assertions : bool.

(** [block_free] of [refcount.c], as a function on the heap. *)
Variable block_free : ptr -> gmap Z block_t -> gmap Z block_t.

(** The address of the global [_orphan_null]. *)
Variable _orphan_null : ptr.

(** The global [vector_empty]. *)
Variable vector_empty : ptr.

(** [box_null] of [runtime/box.h]. *)
Variable box_null : box_t.

(** The raw tags: a free function together with a [void*] to the data. *)
Definition TAG_CPTR_RAW : Z :=
  (if INTPTR_SIZE <? 8 then TAG_FLOAT else TAG_INT64) + 1.
Definition TAG_STRING_RAW : Z := TAG_CPTR_RAW + 1.
Definition TAG_BYTES_RAW : Z := TAG_STRING_RAW + 1.
Definition TAG_LAST : Z := TAG_BYTES_RAW + 1.

Definition tag_is_raw (tg : Z) : bool := TAG_CPTR_RAW <=? tg.

(** ** Platform and boxing *)

(** Modelled from the spec: [assert_internal] ([runtime/platform.h], absent
    from the sources).  An internal-consistency violation is fatal: it
    invokes the abort primitive and terminates the process.  Where the
    macro is compiled out the condition is not evaluated. *)
Definition assert_internal (c : M bool) : M unit :=
  if assertions then (v ← c; if v : bool then ret tt else abort) else ret tt.

(** The width of [uintptr_t], [uintx_t] and [size_t] in bits. *)
Definition word_bits : Z := 8 * INTPTR_SIZE.

Definition uintx (x : Z) : Z := wrap word_bits x.

Definition sizeof_header_t : Z := 8.
Definition sizeof_box_t : Z := INTPTR_SIZE.

(** Modelled from the spec: [box_enum] ([runtime/box.h], absent from the
    sources).  Direct scalars box by shifting left and OR-ing a tag
    pattern no valid pointer can have; the [value_tag] macro of [runtime.h]
    spells the same function out as [((uintx_t)tag << 2) | 0x03]. *)
Definition box_enum (u : Z) : box_t := uintx (Z.lor (Z.shiftl u 2) 3).

(** Modelled from the spec: [unbox_enum] ([runtime/box.h], absent from the
    sources), the inverse of [box_enum] on the values it produced. *)
Definition unbox_enum (v : box_t) : Z := Z.shiftr v 2.

(** Modelled from the spec: [box_ptr] and [unbox_ptr] ([runtime/box.h],
    absent from the sources).  Pointers box as themselves. *)
Definition box_ptr (p : ptr) : box_t := p.
Definition unbox_ptr (v : box_t) : ptr := v.

(** Modelled from the spec: the two-bit test that tells a pointer from a
    direct value ([runtime/box.h], absent from the sources): alignment
    guarantees that the low bits of a pointer are zero. *)
Definition is_ptr (v : box_t) : bool := Z.land v 3 =? 0.

(** ** Blocks *)

Definition block_tag (b : ptr) : M Z :=
  h ← load_header b; ret (tag h).

Definition block_scan_fsize (b : ptr) : M Z :=
  h ← load_header b;
  let sfsize := scan_fsize h in
  if negb (sfsize =? SCAN_FSIZE_MAX) then ret sfsize
  else (* bl = (const block_large_t* )b *)
    v ← load_field b 0; ret (unbox_enum v).

Definition block_refcount (b : ptr) : M Z :=
  h ← load_header b; ret (refcount h).

Definition block_is_unique (b : ptr) : M bool :=
  h ← load_header b; ret (refcount h =? 0).

(** ** Allocation *)

(** An address that no live block has: a multiple of 16, not null. *)
Definition malloc_addr (h : gmap Z block_t) : ptr :=
  16 * fresh (({[0]} : gset Z) ∪ set_map (fun a => Z.div a 16) (dom h)).

(** [malloc(sz)]: fresh storage whose contents are indeterminate.
    Storage of fewer bytes than a header is no block: the heap gets no
    entry for it, so that a store of the header through the pointer is
    outside the allocation and undefined. *)
Definition runtime_malloc (sz : Z) : M ptr :=
  fun w =>
    let p := malloc_addr (heap w) in
    if sz <? sizeof_header_t then Ret p (with_call (call_malloc sz p) w)
    else
      let n := Z.to_nat ((sz - sizeof_header_t) / sizeof_box_t) in
      Ret p (World (<[p := Block None (replicate n None)]> (heap w))
                   (call_malloc sz p :: calls w)).

(** [free(p)]. *)
Definition runtime_free (p : ptr) : M unit :=
  fun w => match heap w !! p with
           | Some _ => Ret tt (World (delete p (heap w)) (call_free p :: calls w))
           | None => Undef
           end.

Definition block_init (b : ptr) (size fsize tg : Z) : M unit :=
  assert_internal (ret (fsize <? SCAN_FSIZE_MAX)) ;;
  (* header_t header = { 0 } *)
  store_header b (Header 0 (u16 tg) (u8 fsize) false).

Definition block_large_init (b : ptr) (size fsize tg : Z) : M unit :=
  store_header b (Header 0 (u16 tg) SCAN_FSIZE_MAX false) ;;
  store_field b 0 (box_enum fsize).

Definition block_alloc (size fsize tg : Z) : M ptr :=
  assert_internal (ret (fsize <? SCAN_FSIZE_MAX)) ;;
  b ← runtime_malloc size;
  block_init b size fsize tg ;;
  ret b.

Definition block_large_alloc (size fsize tg : Z) : M ptr :=
  b ← runtime_malloc (uintx (size + 1));
  block_large_init b size fsize tg ;;
  ret b.

(** [_block_as_assert]. *)
Definition block_as (b : ptr) (tg : Z) : M ptr :=
  assert_internal (t ← block_tag b; ret (t =? tg)) ;;
  ret b.

(** ** Reference counting *)

(** Counts above this value are sticky (the comment on [header_t]). *)
Definition RC_STICKY : Z := 0xC0000000.

(** [b->header.refcount = rc]. *)
Definition store_refcount (b : ptr) (rc : Z) : M unit :=
  h ← load_header b; store_header b (set_refcount rc h).

(** Modelled from the spec: [dup_block_check] ([refcount.c], absent from
    the sources).  Thread-shared counts are adjusted with an atomic
    increment; a sticky count is pinned and never changes again. *)
Definition dup_block_check (b : ptr) : M ptr :=
  log (call_dup_block_check b) ;;
  h ← load_header b;
  (if RC_STICKY <? refcount h then ret tt
   else store_refcount b (u32 (refcount h + 1))) ;;
  ret b.

(** Modelled from the spec: [block_check_free] ([refcount.c], absent from
    the sources).  A unique block (count 0) is freed; a sticky count is
    never decremented again; any other count is thread-shared and is
    adjusted with an atomic decrement. *)
Definition block_check_free (b : ptr) : M unit :=
  log (call_block_check_free b) ;;
  h ← load_header b;
  if refcount h =? 0 then on_heap (block_free b)
  else if RC_STICKY <? refcount h then ret tt
  else store_refcount b (u32 (refcount h - 1)).

Definition dup_block (b : ptr) : M ptr :=
  h ← load_header b;
  let rc := refcount h in
  if as_int32 rc <? 0 then dup_block_check b
  else (store_refcount b (u32 (rc + 1)) ;; ret b).

Definition drop_block (b : ptr) : M unit :=
  h ← load_header b;
  let rc := refcount h in
  if as_int32 rc <=? 0 then block_check_free b
  else store_refcount b (u32 (rc - 1)).

(** Modelled from the spec: [drop_boxed] ([runtime/box.h], absent from the
    sources).  The two-bit test skips the reference-count work on direct
    values; a pointer is dropped as the block it points to. *)
Definition drop_boxed (v : box_t) : M unit :=
  log (call_drop_boxed v) ;;
  if is_ptr v then drop_block (unbox_ptr v) else ret tt.

(** ** Reuse of the memory of a matched scrutinee *)

Definition orphan_null : ptr := _orphan_null.

Definition orphan_block (b : ptr) : M ptr :=
  store_header b header_zero ;; ret b.

Definition block_release0 (b : ptr) : M ptr :=
  u ← block_is_unique b;
  if u : bool then orphan_block b
  else (drop_block b ;; ret orphan_null).

Definition block_release1 (b : ptr) (unused_field1 : box_t) : M ptr :=
  u ← block_is_unique b;
  if u : bool then (drop_boxed unused_field1 ;; orphan_block b)
  else (drop_block b ;; ret orphan_null).

Definition block_no_reuse (o : ptr) : M unit :=
  if negb (o =? orphan_null) then runtime_free o else ret tt.

Definition block_alloc_reuse (o : ptr) (size fsize tg : Z) : M ptr :=
  b ← (if negb (o =? orphan_null)
       then (assert_internal (block_is_unique o) ;; ret o)
       else runtime_malloc size);
  block_init b size fsize tg ;;
  ret b.

(** ** Vectors *)

Definition dup_vector (v : ptr) : M ptr := dup_block v.
Definition drop_vector (v : ptr) : M unit := drop_block v.

(** [struct vector_small_s]: the header, [length], [vec[1]]. *)
Definition sizeof_vector_small_s : Z := sizeof_header_t + 2 * sizeof_box_t.
(** [struct vector_large_s]: a [block_large_s], [length], [vec[1]]. *)
Definition sizeof_vector_large_s : Z := sizeof_header_t + 3 * sizeof_box_t.

(** Fields of a small vector: [length] at 0, [vec[i]] at [1 + i]. *)
Definition small_length : nat := 0.
Definition small_vec (i : nat) : nat := 1 + i.
(** Fields of a large vector: [large_scan_fsize] at 0, [length] at 1,
    [vec[i]] at [2 + i]. *)
Definition large_length : nat := 1.
Definition large_vec (i : nat) : nat := 2 + i.

Definition vector_alloc (length : Z) (def : box_t) : M ptr :=
  if length =? 0 then dup_vector vector_empty
  else if length <? SCAN_FSIZE_MAX then
    b ← block_alloc (uintx (sizeof_vector_small_s + uintx ((length - 1) * sizeof_box_t)))
                    (uintx (1 + length)) TAG_VECTOR_SMALL;
    v ← block_as b TAG_VECTOR_SMALL;
    store_field v small_length (box_enum length) ;;
    (if negb (def =? box_null)
     then for_range 0 (Z.to_nat length) (fun i => store_field v (small_vec i) def)
     else ret tt) ;;
    ret v
  else
    v ← block_large_alloc (uintx (sizeof_vector_large_s + uintx ((length - 1) * sizeof_box_t)))
                          (uintx (1 + length)) TAG_VECTOR;
    store_field v large_length (box_enum length) ;;
    (if negb (def =? box_null)
     then for_range 0 (Z.to_nat length) (fun i => store_field v (large_vec i) def)
     else ret tt) ;;
    ret v.

(** What the loop of [vector_alloc] leaves in the elements. *)
Definition initial_elements (length : Z) (def : box_t) : list (option box_t) :=
  replicate (Z.to_nat length) (if def =? box_null then None else Some def).

Definition vector_len (v : ptr) : M Z :=
  t ← block_tag v;
  if t =? TAG_VECTOR_SMALL then
    vs ← block_as v TAG_VECTOR_SMALL;
    l ← load_field vs small_length; ret (unbox_enum l)
  else
    vl ← block_as v TAG_VECTOR;
    l ← load_field vl large_length; ret (unbox_enum l).

(** The body of [box_vector_t] evaluates [box_ptr(&v->_block)] and ends
    without a [return] statement: the call yields no value. *)
Definition box_vector_t (v : ptr) : M (option box_t) :=
  let _ := box_ptr v in
  ret None.

Definition unbox_vector_t (v : box_t) : M ptr :=
  let b := unbox_ptr v in
  assert_internal (t ← block_tag b;
                   ret ((t =? TAG_VECTOR_SMALL) || (t =? TAG_VECTOR))) ;;
  ret b.

(** What the caller of a function does with its value: a call that
    yielded none has undefined behaviour as soon as the value is used. *)
Definition use_value {A} (m : M (option A)) : M A :=
  o ← m; match o with Some a => ret a | None => undef end.

(** ** The rest of [runtime.h] *)

(** Whether [NDEBUG] is defined, which compiles the [assert] of
    [<assert.h>] out. *)
Variable NDEBUG : bool.

(** [assert(c)] of [<assert.h>]: aborts when [c] is false, unless compiled
    out. *)
Definition c_assert (c : M bool) : M unit :=
  if NDEBUG then ret tt else (v ← c; if v : bool then ret tt else abort).

(** Modelled from the spec: [dup_boxed] ([runtime/box.h], absent from the
    sources).  The two-bit test skips the reference-count work on direct
    values; a pointer is duplicated as the block it points to, and the
    box is returned as it is. *)
Definition dup_boxed (v : box_t) : M box_t :=
  if is_ptr v then (dup_block (unbox_ptr v) ;; ret v) else ret v.

(** [value_tag(tag)]: [box_from_uintptr(((uintx_t)tag << 2) | 0x03)]. *)
Definition value_tag (tg : Z) : box_t :=
  Z.lor (uintx (Z.shiftl (uintx tg) 2)) 3.

(** *** Functions *)

Definition function_is_unique (f : ptr) : M bool := block_is_unique f.

Definition drop_function (f : ptr) : M unit := drop_block f.

Definition dup_function (f : ptr) : M ptr :=
  b ← dup_block f; block_as b TAG_FUNCTION.

(** *** References *)

(** [unit_e]. *)
Inductive unit_t : Type := Unit.

(** [struct ref_s]: the header and [value], the field at index 0. *)
Definition sizeof_ref_s : Z := sizeof_header_t + sizeof_box_t.
Definition ref_value : nat := 0.

Definition ref_alloc (value : box_t) : M ptr :=
  r ← block_alloc sizeof_ref_s 1 TAG_REF;
  store_field r ref_value value ;;
  ret r.

Definition ref_get (b : ptr) : M box_t :=
  v ← load_field b ref_value; dup_boxed v.

Definition ref_set (r : ptr) (value : box_t) : M unit_t :=
  b ← load_field r ref_value;
  drop_boxed b ;;
  store_field r ref_value value ;;
  ret Unit.

Definition ref_swap (r : ptr) (value : box_t) : M box_t :=
  b ← load_field r ref_value;
  store_field r ref_value value ;;
  ret b.

(** *** Vector access *)

(** [vector_buf(v, len)]: the address of [vec[0]], as the index of that
    field in the block of [v]; the length is produced only when [len] is
    not [NULL]. *)
Definition vector_buf (v : ptr) (len : bool) : M (option Z * nat) :=
  l ← (if len then (n ← vector_len v; ret (Some n)) else ret None);
  t ← block_tag v;
  if t =? TAG_VECTOR_SMALL then
    vs ← block_as v TAG_VECTOR_SMALL; ret (l, small_vec 0)
  else
    vl ← block_as v TAG_VECTOR; ret (l, large_vec 0).

Definition vector_at (v : ptr) (i : Z) : M box_t :=
  c_assert (n ← vector_len v; ret (i <? n)) ;;
  buf ← vector_buf v false;
  x ← load_field v (snd buf + Z.to_nat i);
  dup_boxed x.

(** The two layouts: the fields in front of [length], and the tag and
    inline scan count that go with them. *)
Definition vector_layout (h : header_t) (pre : list (option box_t)) (n : Z) : Prop :=
  (tag h = TAG_VECTOR_SMALL /\ pre = [] /\ scan_fsize h = 1 + n /\ n < SCAN_FSIZE_MAX)
  \/ (tag h = TAG_VECTOR /\ pre = [Some (box_enum (1 + n))]
      /\ scan_fsize h = SCAN_FSIZE_MAX /\ SCAN_FSIZE_MAX <= n).

(** *** Sequences of [dup_block] and [drop_block] *)

Inductive rc_op : Type := op_dup | op_drop.

Definition run_op (b : ptr) (o : rc_op) : M unit :=
  match o with
  | op_dup => dup_block b ;; ret tt
  | op_drop => drop_block b
  end.

Fixpoint run_ops (b : ptr) (ops : list rc_op) : M unit :=
  match ops with
  | [] => ret tt
  | o :: rest => run_op b o ;; run_ops b rest
  end.

(** The count after [ops], for as long as neither function leaves its
    inline path: no dup takes the count to 0x80000000 and no drop finds
    it at 0. *)
Fixpoint count_after (rc : Z) (ops : list rc_op) : option Z :=
  match ops with
  | [] => Some rc
  | op_dup :: rest =>
      if rc + 1 <? 2 ^ 31 then count_after (rc + 1) rest else None
  | op_drop :: rest =>
      if 0 <? rc then count_after (rc - 1) rest else None
  end.

(** The number of dups minus the number of drops in [ops]. *)
Fixpoint net_dups (ops : list rc_op) : Z :=
  match ops with
  | [] => 0
  | op_dup :: rest => 1 + net_dups rest
  | op_drop :: rest => net_dups rest - 1
  end.

(** *** The thread local context *)

(** [yield_t]. *)
Record yield_t : Type := Yield {
  yield_marker : Z;               (* int32_t *)
  yield_clause : ptr;
  yield_conts_count : Z;
  yield_conts : list ptr
}.

(** [context_t]. *)
Record context_t : Type := Context {
  ctx_yielding : Z;               (* uint8_t *)
  ctx_heap : Z;
  ctx_evv : ptr;
  ctx_yield : yield_t;
  ctx_marker_unique : Z;          (* int32_t *)
  ctx_delayed_free : ptr;
  ctx_unique : box_t;
  ctx_thread_id : Z;
  ctx_log : ptr;
  ctx_out : ptr
}.

Definition YIELD_NONE : Z := 0.
Definition YIELD_NORMAL : Z := 1.
Definition YIELD_FINAL : Z := 2.

Definition yielding (ctx : context_t) : bool :=
  negb (ctx_yielding ctx =? YIELD_NONE).

Definition yielding_non_final (ctx : context_t) : bool :=
  ctx_yielding ctx =? YIELD_NORMAL.

Definition set_marker_unique (m : Z) (ctx : context_t) : context_t :=
  Context (ctx_yielding ctx) (ctx_heap ctx) (ctx_evv ctx) (ctx_yield ctx) m
          (ctx_delayed_free ctx) (ctx_unique ctx) (ctx_thread_id ctx)
          (ctx_log ctx) (ctx_out ctx).

(** [return ctx->marker_unique++;] on an [int32_t]: the increment of
    [INT32_MAX] overflows, which is undefined ([None]). *)
Definition marker_unique (ctx : context_t) : option (Z * context_t) :=
  let m := ctx_marker_unique ctx in
  if m <? 2 ^ 31 - 1 then Some (m, set_marker_unique (m + 1) ctx) else None.

(** [k] calls of [marker_unique] in a row. *)
Fixpoint markers (k : nat) (ctx : context_t) : option (list Z * context_t) :=
  match k with
  | O => Some ([], ctx)
  | S k' =>
      match marker_unique ctx with
      | Some (m, ctx') =>
          match markers k' ctx' with
          | Some (ms, ctx'') => Some (m :: ms, ctx'')
          | None => None
          end
      | None => None
      end
  end.

(** * Properties *)

(** ** Machine integers *)

Lemma u32_small x : is_u32 x -> u32 x = x.
Proof. unfold is_u32, u32, wrap. intros H. apply Z.mod_small. exact H. Qed.

Lemma as_int32_nonneg rc : is_u32 rc -> (0 <= as_int32 rc <-> rc < 2 ^ 31).
Proof. unfold is_u32, as_int32. intros H. destruct (Z.ltb_spec rc (2 ^ 31)); lia. Qed.

Lemma as_int32_neg rc : is_u32 rc -> (as_int32 rc < 0 <-> 2 ^ 31 <= rc).
Proof. unfold is_u32, as_int32. intros H. destruct (Z.ltb_spec rc (2 ^ 31)); lia. Qed.

Lemma as_int32_pos rc : is_u32 rc -> (0 < as_int32 rc <-> 0 < rc < 2 ^ 31).
Proof. unfold is_u32, as_int32. intros H. destruct (Z.ltb_spec rc (2 ^ 31)); lia. Qed.

Lemma as_int32_nonpos rc :
  is_u32 rc -> (as_int32 rc <= 0 <-> rc = 0 \/ 2 ^ 31 <= rc).
Proof. unfold is_u32, as_int32. intros H. destruct (Z.ltb_spec rc (2 ^ 31)); lia. Qed.

(** ** Running the primitives on a block that is there *)

Lemma bind_eq {A B} (m : M A) (k : A -> M B) w :
  (m ≫= k) w = match m w with Ret a w' => k a w' | Abort => Abort | Undef => Undef end.
Proof. reflexivity. Qed.

Lemma bind_Ret {A B} (m : M A) (k : A -> M B) w a w' :
  m w = Ret a w' -> (m ≫= k) w = k a w'.
Proof. intros H. rewrite bind_eq, H. reflexivity. Qed.

Lemma block_at_poke w b blk h fs :
  block_at (poke b blk w) b h fs <-> blk = Block (Some h) fs.
Proof.
  unfold block_at, poke, with_heap. cbn [heap]. rewrite lookup_insert_eq.
  split; [intros [= ->] | intros ->]; reflexivity.
Qed.

Lemma poke_poke b blk blk' w : poke b blk (poke b blk' w) = poke b blk w.
Proof. unfold poke, with_heap. cbn [heap calls]. rewrite insert_insert_eq. reflexivity. Qed.

Lemma poke_same w b h fs : block_at w b h fs -> poke b (Block (Some h) fs) w = w.
Proof.
  unfold block_at, poke, with_heap. intros H. destruct w as [hp cs]. cbn [heap calls] in *.
  rewrite insert_id by exact H. reflexivity.
Qed.

Lemma set_refcount_same h : set_refcount (refcount h) h = h.
Proof. destruct h. reflexivity. Qed.

Lemma set_refcount_twice rc rc' h : set_refcount rc (set_refcount rc' h) = set_refcount rc h.
Proof. reflexivity. Qed.

Lemma load_header_at w b h fs : block_at w b h fs -> load_header b w = Ret h w.
Proof. unfold block_at, load_header. intros ->. reflexivity. Qed.

Lemma store_header_at w b h fs h' :
  block_at w b h fs -> store_header b h' w = Ret tt (poke b (Block (Some h') fs) w).
Proof. unfold block_at, store_header. intros ->. reflexivity. Qed.

Lemma store_refcount_at w b h fs rc :
  block_at w b h fs ->
  store_refcount b rc w = Ret tt (poke b (Block (Some (set_refcount rc h)) fs) w).
Proof.
  intros H. unfold store_refcount.
  rewrite (bind_Ret _ _ _ _ _ (load_header_at _ _ _ _ H)).
  apply (store_header_at _ _ _ _ _ H).
Qed.

Lemma poke_id w b blk : heap w !! b = Some blk -> poke b blk w = w.
Proof.
  unfold poke, with_heap. intros H. destruct w as [hp cs]. cbn [heap calls] in *.
  rewrite insert_id by exact H. reflexivity.
Qed.

Lemma heap_poke b blk w : heap (poke b blk w) !! b = Some blk.
Proof. unfold poke, with_heap. cbn [heap]. apply lookup_insert_eq. Qed.

Lemma store_field_on w b ho fs (i : nat) v :
  heap w !! b = Some (Block ho fs) -> (i < length fs)%nat ->
  store_field b i v w = Ret tt (poke b (Block ho (<[i := Some v]> fs)) w).
Proof.
  intros H Hi. unfold store_field. rewrite H. cbn [fields header].
  destruct (decide (i < length fs)%nat) as [_ | Hbad]; [reflexivity | lia].
Qed.

Lemma load_field_on w b ho fs (i : nat) v :
  heap w !! b = Some (Block ho fs) -> fs !! i = Some (Some v) ->
  load_field b i w = Ret v w.
Proof. intros H Hi. unfold load_field. rewrite H. cbn [fields]. rewrite Hi. reflexivity. Qed.

Lemma bind_log {B} c (k : unit -> M B) w : (log c ≫= k) w = k tt (with_call c w).
Proof. reflexivity. Qed.

Lemma log_block_at c w b h fs : block_at w b h fs -> block_at (with_call c w) b h fs.
Proof. intros H. exact H. Qed.

(** ** The reference-count fast paths *)

Lemma dup_block_plain w b h fs :
  block_at w b h fs -> (0 <= refcount h < 2 ^ 31) ->
  dup_block b w = Ret b (poke b (Block (Some (set_refcount (refcount h + 1) h)) fs) w).
Proof.
  intros H Hrc. unfold dup_block.
  rewrite (bind_Ret _ _ _ _ _ (load_header_at _ _ _ _ H)).
  assert (Hs : (as_int32 (refcount h) <? 0) = false).
  { apply Z.ltb_ge. apply as_int32_nonneg; unfold is_u32; lia. }
  rewrite Hs.
  rewrite (bind_Ret _ _ _ _ _ (store_refcount_at _ _ _ _ _ H)).
  rewrite u32_small by (unfold is_u32; lia). reflexivity.
Qed.

Lemma dup_block_slow w b h fs :
  block_at w b h fs -> (2 ^ 31 <= refcount h < 2 ^ 32) ->
  dup_block b w = dup_block_check b w.
Proof.
  intros H Hrc. unfold dup_block.
  rewrite (bind_Ret _ _ _ _ _ (load_header_at _ _ _ _ H)).
  assert (Hs : (as_int32 (refcount h) <? 0) = true).
  { apply Z.ltb_lt. apply as_int32_neg; unfold is_u32; lia. }
  rewrite Hs. reflexivity.
Qed.

Lemma drop_block_plain w b h fs :
  block_at w b h fs -> (0 < refcount h < 2 ^ 31) ->
  drop_block b w = Ret tt (poke b (Block (Some (set_refcount (refcount h - 1) h)) fs) w).
Proof.
  intros H Hrc. unfold drop_block.
  rewrite (bind_Ret _ _ _ _ _ (load_header_at _ _ _ _ H)).
  assert (Hs : (as_int32 (refcount h) <=? 0) = false).
  { apply Z.leb_gt. apply as_int32_pos; unfold is_u32; lia. }
  rewrite Hs.
  rewrite (store_refcount_at _ _ _ _ _ H).
  rewrite u32_small by (unfold is_u32; lia). reflexivity.
Qed.

Lemma drop_block_slow w b h fs :
  block_at w b h fs -> (refcount h = 0 \/ 2 ^ 31 <= refcount h < 2 ^ 32) ->
  drop_block b w = block_check_free b w.
Proof.
  intros H Hrc. unfold drop_block.
  rewrite (bind_Ret _ _ _ _ _ (load_header_at _ _ _ _ H)).
  assert (Hs : (as_int32 (refcount h) <=? 0) = true).
  { apply Z.leb_le. apply as_int32_nonpos; unfold is_u32; lia. }
  rewrite Hs. reflexivity.
Qed.

(** The slow paths always record that they were entered. *)
Lemma dup_block_check_logs w b h fs :
  block_at w b h fs ->
  exists w', dup_block_check b w = Ret b w' /\
             calls w' = call_dup_block_check b :: calls w.
Proof.
  intros H. unfold dup_block_check.
  rewrite bind_log.
  pose proof (log_block_at (call_dup_block_check b) _ _ _ _ H) as H'.
  rewrite (bind_Ret _ _ _ _ _ (load_header_at _ _ _ _ H')).
  destruct (RC_STICKY <? refcount h).
  - eexists. split; reflexivity.
  - rewrite (bind_Ret _ _ _ _ _ (store_refcount_at _ _ _ _ _ H')).
    eexists. split; reflexivity.
Qed.

Lemma block_check_free_logs w b h fs :
  block_at w b h fs ->
  exists w', block_check_free b w = Ret tt w' /\
             calls w' = call_block_check_free b :: calls w.
Proof.
  intros H. unfold block_check_free.
  rewrite bind_log.
  pose proof (log_block_at (call_block_check_free b) _ _ _ _ H) as H'.
  rewrite (bind_Ret _ _ _ _ _ (load_header_at _ _ _ _ H')).
  destruct (refcount h =? 0); [| destruct (RC_STICKY <? refcount h)].
  - eexists. split; reflexivity.
  - eexists. split; reflexivity.
  - rewrite (store_refcount_at _ _ _ _ _ H').
    eexists. split; reflexivity.
Qed.

(** A thread-shared count that is not sticky is decremented in place. *)
Lemma block_check_free_shared w b h fs :
  block_at w b h fs -> (0 < refcount h <= RC_STICKY) ->
  block_check_free b w =
  Ret tt (poke b (Block (Some (set_refcount (refcount h - 1) h)) fs)
               (with_call (call_block_check_free b) w)).
Proof.
  intros H Hrc. unfold block_check_free.
  rewrite bind_log.
  pose proof (log_block_at (call_block_check_free b) _ _ _ _ H) as H'.
  rewrite (bind_Ret _ _ _ _ _ (load_header_at _ _ _ _ H')).
  assert (E0 : (refcount h =? 0) = false) by (apply Z.eqb_neq; lia).
  assert (E1 : (RC_STICKY <? refcount h) = false) by (apply Z.ltb_ge; lia).
  rewrite E0, E1.
  rewrite (store_refcount_at _ _ _ _ _ H').
  rewrite u32_small; [reflexivity |].
  unfold is_u32, RC_STICKY in *. lia.
Qed.

(** C7.  [dup_block] and [drop_block] choose their path by one sign test
    on the 32-bit count.  When the count reads nonnegative, [dup_block]
    stores the count plus one, returns the same pointer and calls nothing;
    when it reads negative, [dup_block] is [dup_block_check], which is
    recorded among the calls.  When the count reads strictly positive,
    [drop_block] stores the count minus one and calls nothing; when it
    reads zero or negative, [drop_block] is [block_check_free], which is
    recorded among the calls. *)
Theorem dup_drop_sign_test w b h fs :
  block_at w b h fs -> is_u32 (refcount h) ->
  (0 <= as_int32 (refcount h) ->
     dup_block b w =
     Ret b (poke b (Block (Some (set_refcount (refcount h + 1) h)) fs) w))
  /\ (as_int32 (refcount h) < 0 ->
     dup_block b w = dup_block_check b w /\
     exists w', dup_block b w = Ret b w' /\
                calls w' = call_dup_block_check b :: calls w)
  /\ (0 < as_int32 (refcount h) ->
     drop_block b w =
     Ret tt (poke b (Block (Some (set_refcount (refcount h - 1) h)) fs) w))
  /\ (as_int32 (refcount h) <= 0 ->
     drop_block b w = block_check_free b w /\
     exists w', drop_block b w = Ret tt w' /\
                calls w' = call_block_check_free b :: calls w).
Proof.
  intros H Hu. pose proof Hu as Hu'. unfold is_u32 in Hu'.
  split; [| split; [| split]].
  - intros Hs. apply as_int32_nonneg in Hs; [| exact Hu].
    apply (dup_block_plain _ _ _ _ H). lia.
  - intros Hs. apply as_int32_neg in Hs; [| exact Hu].
    assert (E : dup_block b w = dup_block_check b w).
    { apply (dup_block_slow _ _ _ _ H). lia. }
    split; [exact E |]. rewrite E. apply (dup_block_check_logs _ _ _ _ H).
  - intros Hs. apply as_int32_pos in Hs; [| exact Hu].
    apply (drop_block_plain _ _ _ _ H). lia.
  - intros Hs. apply as_int32_nonpos in Hs; [| exact Hu].
    assert (E : drop_block b w = block_check_free b w).
    { apply (drop_block_slow _ _ _ _ H). lia. }
    split; [exact E |]. rewrite E. apply (block_check_free_logs _ _ _ _ H).
Qed.

(** Below 0x7FFFFFFF the pair stays on the inline paths: nothing is
    called and the world is the one from before. *)
Lemma dup_then_drop_plain w b h fs :
  block_at w b h fs -> (0 <= refcount h < 2 ^ 31 - 1) ->
  (dup_block b ;; drop_block b) w = Ret tt w.
Proof.
  intros H Hrc.
  rewrite (bind_Ret _ _ _ _ _ (dup_block_plain _ _ _ _ H ltac:(lia))).
  set (h1 := set_refcount (refcount h + 1) h).
  assert (H1 : block_at (poke b (Block (Some h1) fs) w) b h1 fs)
    by (apply block_at_poke; reflexivity).
  rewrite (drop_block_plain _ _ _ _ H1) by (subst h1; cbn [refcount set_refcount]; lia).
  subst h1. rewrite poke_poke, set_refcount_twice. cbn [refcount set_refcount].
  replace (refcount h + 1 - 1) with (refcount h) by lia.
  rewrite set_refcount_same, (poke_same _ _ _ _ H). reflexivity.
Qed.

(** C1.  On a block whose stored count reads nonnegative as a signed
    32-bit value, [dup_block] followed by [drop_block] returns normally
    and leaves the heap as it was: the stored count, the tag, the scan
    count, the thread-shared flag and the fields of the block are those
    from before the two calls. *)
Theorem dup_then_drop_restores_header w b h fs :
  block_at w b h fs -> is_u32 (refcount h) -> 0 <= as_int32 (refcount h) ->
  exists w', (dup_block b ;; drop_block b) w = Ret tt w' /\
             heap w' = heap w /\ block_at w' b h fs.
Proof.
  intros H Hu Hs. apply as_int32_nonneg in Hs; [| exact Hu]. unfold is_u32 in Hu.
  destruct (Z.lt_ge_cases (refcount h + 1) (2 ^ 31)) as [Hlt | Hge].
  - (* the count stays positive: the plain increment and decrement *)
    rewrite (dup_then_drop_plain _ _ _ _ H) by lia.
    exists w. split; [reflexivity |]. split; [reflexivity | exact H].
  - (* the count becomes 0x80000000: [block_check_free] decrements it *)
    rewrite (bind_Ret _ _ _ _ _ (dup_block_plain _ _ _ _ H ltac:(lia))).
    set (h1 := set_refcount (refcount h + 1) h).
    set (w1 := poke b (Block (Some h1) fs) w).
    assert (H1 : block_at w1 b h1 fs) by (apply block_at_poke; reflexivity).
    assert (Hrc1 : refcount h1 = refcount h + 1) by reflexivity.
    assert (Hback : set_refcount (refcount h1 - 1) h1 = h).
    { subst h1. rewrite set_refcount_twice. cbn [refcount set_refcount].
      replace (refcount h + 1 - 1) with (refcount h) by lia. apply set_refcount_same. }
    rewrite (drop_block_slow _ _ _ _ H1) by lia.
    rewrite (block_check_free_shared _ _ _ _ H1) by (unfold RC_STICKY; lia).
    rewrite Hback.
    eexists. split; [reflexivity |].
    assert (E : heap (poke b (Block (Some h) fs)
                        (with_call (call_block_check_free b) w1)) = heap w).
    { subst w1. unfold poke, with_heap, with_call. cbn [heap calls].
      rewrite insert_insert_eq. apply insert_id. exact H. }
    split; [exact E |]. unfold block_at. rewrite E. exact H.
Qed.

(** ** Repeated [dup_block] and [drop_block] *)

Lemma calls_poke b blk w : calls (poke b blk w) = calls w.
Proof. reflexivity. Qed.

Lemma times_snoc {A} (m : M A) n w : times (S n) m w = (times n m ;; m ;; ret tt) w.
Proof.
  revert w. induction n as [| n IH]; intros w.
  - reflexivity.
  - change (times (S (S n)) m) with (m ;; times (S n) m).
    change (times (S n) m ;; m ;; ret tt) with ((m ;; times n m) ;; m ;; ret tt).
    rewrite !bind_eq. destruct (m w) as [a w' | |]; [| reflexivity | reflexivity].
    rewrite IH. reflexivity.
Qed.

Lemma times_dup_block (n : nat) : forall w b h fs,
  block_at w b h fs -> 0 <= refcount h -> refcount h + Z.of_nat n < 2 ^ 31 ->
  times n (dup_block b) w =
  Ret tt (poke b (Block (Some (set_refcount (refcount h + Z.of_nat n) h)) fs) w).
Proof.
  induction n as [| n IH]; intros w b h fs H H0 Hn.
  - cbn [times]. unfold ret. replace (refcount h + Z.of_nat 0) with (refcount h) by lia.
    rewrite set_refcount_same, (poke_same _ _ _ _ H). reflexivity.
  - change (times (S n) (dup_block b)) with (dup_block b ;; times n (dup_block b)).
    rewrite (bind_Ret _ _ _ _ _ (dup_block_plain _ _ _ _ H ltac:(lia))).
    rewrite (IH _ b (set_refcount (refcount h + 1) h) fs).
    + rewrite poke_poke, set_refcount_twice. cbn [refcount set_refcount].
      replace (refcount h + 1 + Z.of_nat n) with (refcount h + Z.of_nat (S n)) by lia.
      reflexivity.
    + apply block_at_poke. reflexivity.
    + cbn [refcount set_refcount]. lia.
    + cbn [refcount set_refcount]. lia.
Qed.

Lemma times_drop_block (n : nat) : forall w b h fs,
  block_at w b h fs -> Z.of_nat n <= refcount h -> refcount h < 2 ^ 31 ->
  times n (drop_block b) w =
  Ret tt (poke b (Block (Some (set_refcount (refcount h - Z.of_nat n) h)) fs) w).
Proof.
  induction n as [| n IH]; intros w b h fs H H0 Hn.
  - cbn [times]. unfold ret. replace (refcount h - Z.of_nat 0) with (refcount h) by lia.
    rewrite set_refcount_same, (poke_same _ _ _ _ H). reflexivity.
  - change (times (S n) (drop_block b)) with (drop_block b ;; times n (drop_block b)).
    rewrite (bind_Ret _ _ _ _ _ (drop_block_plain _ _ _ _ H ltac:(lia))).
    rewrite (IH _ b (set_refcount (refcount h - 1) h) fs).
    + rewrite poke_poke, set_refcount_twice. cbn [refcount set_refcount].
      replace (refcount h - 1 - Z.of_nat n) with (refcount h - Z.of_nat (S n)) by lia.
      reflexivity.
    + apply block_at_poke. reflexivity.
    + cbn [refcount set_refcount]. lia.
    + cbn [refcount set_refcount]. lia.
Qed.

(** C2.  Charge conservation.  On a block whose stored count is 0 the
    first [drop_block] is the free path [block_check_free].  After [N]
    calls of [dup_block], with [N] below 2^31 so that the count never
    reads negative, each of the first [N] calls of [drop_block] only
    lowers the stored count by one and calls nothing ([k] drops leave the
    count at [N - k]); the drop number [N + 1] is the free path, entered
    on the block as it was before the first dup. *)
Theorem charge_conservation w b h fs (N : nat) :
  block_at w b h fs -> refcount h = 0 -> Z.of_nat N < 2 ^ 31 ->
  drop_block b w = block_check_free b w
  /\ (forall k : nat, (k <= N)%nat ->
        (times N (dup_block b) ;; times k (drop_block b)) w =
        Ret tt (poke b (Block (Some (set_refcount (Z.of_nat N - Z.of_nat k) h)) fs) w))
  /\ (times N (dup_block b) ;; times N (drop_block b) ;; drop_block b) w =
     block_check_free b w
  /\ (times N (dup_block b) ;; times (S N) (drop_block b)) w =
     (block_check_free b ;; ret tt) w
  /\ (exists w', block_check_free b w = Ret tt w' /\
                 calls w' = call_block_check_free b :: calls w).
Proof.
  intros H Hrc HN.
  assert (Hfree : drop_block b w = block_check_free b w).
  { apply (drop_block_slow _ _ _ _ H). left. exact Hrc. }
  assert (Hdups := times_dup_block N _ _ _ _ H ltac:(lia) ltac:(lia)).
  rewrite Hrc in Hdups. cbn [Z.add] in Hdups.
  set (hN := set_refcount (Z.of_nat N) h) in *.
  set (wN := poke b (Block (Some hN) fs) w) in *.
  assert (HatN : block_at wN b hN fs) by (apply block_at_poke; reflexivity).
  assert (Hdrops : forall k : nat, (k <= N)%nat ->
            times k (drop_block b) wN =
            Ret tt (poke b (Block (Some (set_refcount (Z.of_nat N - Z.of_nat k) h)) fs) w)).
  { intros k Hk.
    rewrite (times_drop_block k _ _ _ _ HatN)
      by (subst hN; cbn [refcount set_refcount]; lia).
    subst wN hN. rewrite poke_poke. reflexivity. }
  assert (Hall : times N (drop_block b) wN = Ret tt w).
  { rewrite (Hdrops N) by lia.
    replace (Z.of_nat N - Z.of_nat N) with (refcount h) by lia.
    rewrite set_refcount_same, (poke_same _ _ _ _ H). reflexivity. }
  split; [exact Hfree |]. split; [| split; [| split]].
  - intros k Hk. rewrite (bind_Ret _ _ _ _ _ Hdups). apply Hdrops, Hk.
  - rewrite (bind_Ret _ _ _ _ _ Hdups), (bind_Ret _ _ _ _ _ Hall). exact Hfree.
  - rewrite (bind_Ret _ _ _ _ _ Hdups), times_snoc, (bind_Ret _ _ _ _ _ Hall).
    rewrite !bind_eq, Hfree. reflexivity.
  - apply (block_check_free_logs _ _ _ _ H).
Qed.

(** ** Tags *)

(** C8.  For every tag from [TAG_MIN] up to the last tag declared before
    [TAG_LAST], the one comparison [tag >= TAG_CPTR_RAW] of [tag_is_raw]
    is true exactly for [TAG_CPTR_RAW], [TAG_STRING_RAW] and
    [TAG_BYTES_RAW], and false for every other tag. *)
Theorem tag_is_raw_exactly_raw_tags (t : Z) :
  TAG_MIN <= t < TAG_LAST ->
  (tag_is_raw t = true <->
     t = TAG_CPTR_RAW \/ t = TAG_STRING_RAW \/ t = TAG_BYTES_RAW)
  /\ (tag_is_raw t = false <->
     t <> TAG_CPTR_RAW /\ t <> TAG_STRING_RAW /\ t <> TAG_BYTES_RAW).
Proof.
  unfold tag_is_raw, TAG_LAST, TAG_BYTES_RAW, TAG_STRING_RAW, TAG_MIN.
  intros Ht. rewrite Z.leb_le, Z.leb_gt. lia.
Qed.

(** Every tag of the enumeration fits the 16-bit header field. *)
Lemma TAG_LAST_fits : TAG_LAST < 65536.
Proof.
  unfold TAG_LAST, TAG_BYTES_RAW, TAG_STRING_RAW, TAG_CPTR_RAW.
  destruct (INTPTR_SIZE <? 8); reflexivity.
Qed.

(** None of the tags declared before [TAG_CPTR_RAW] is raw. *)
Lemma tag_is_raw_declared_tags :
  Forall (fun t => tag_is_raw t = false)
    ([TAG_INVALID; TAG_MIN; TAG_MAX; TAG_OPEN; TAG_BOX; TAG_REF; TAG_FUNCTION;
      TAG_BIGINT; TAG_STRING_SMALL; TAG_STRING; TAG_BYTES; TAG_VECTOR_SMALL;
      TAG_VECTOR; TAG_INT64]
     ++ (if INTPTR_SIZE <? 8 then [TAG_INT32; TAG_DOUBLE; TAG_FLOAT] else [])).
Proof.
  unfold tag_is_raw, TAG_CPTR_RAW.
  destruct (INTPTR_SIZE <? 8); repeat constructor.
Qed.

(** ** Reuse *)

Lemma block_is_unique_at w b h fs :
  block_at w b h fs -> block_is_unique b w = Ret (refcount h =? 0) w.
Proof.
  intros H. unfold block_is_unique.
  rewrite (bind_Ret _ _ _ _ _ (load_header_at _ _ _ _ H)). reflexivity.
Qed.

Lemma orphan_block_at w b h fs :
  block_at w b h fs ->
  orphan_block b w = Ret b (poke b (Block (Some header_zero) fs) w).
Proof.
  intros H. unfold orphan_block.
  rewrite (bind_Ret _ _ _ _ _ (store_header_at _ _ _ _ _ H)). reflexivity.
Qed.

(** [drop_block] returns on every block that is there, and the only call
    it can make is the one to [block_check_free]. *)
Lemma drop_block_calls w b h fs :
  block_at w b h fs ->
  exists w', drop_block b w = Ret tt w' /\
             (calls w' = calls w \/ calls w' = call_block_check_free b :: calls w).
Proof.
  intros H. unfold drop_block.
  rewrite (bind_Ret _ _ _ _ _ (load_header_at _ _ _ _ H)).
  destruct (as_int32 (refcount h) <=? 0).
  - destruct (block_check_free_logs _ _ _ _ H) as (w' & E & Hc).
    exists w'. split; [exact E | right; exact Hc].
  - rewrite (store_refcount_at _ _ _ _ _ H).
    eexists. split; [reflexivity | left; reflexivity].
Qed.

(** C5.  [block_release0] on a unique block zeroes the whole header in
    place, returns the block itself and calls nothing (the storage is not
    freed, the fields stay); on a block that is not unique it is
    [drop_block] on the block, and the value returned is [orphan_null()]. *)
Theorem block_release0_spec w b h fs :
  block_at w b h fs ->
  (refcount h = 0 ->
     block_release0 b w = Ret b (poke b (Block (Some header_zero) fs) w))
  /\ (refcount h <> 0 ->
     exists w', drop_block b w = Ret tt w' /\
                block_release0 b w = Ret orphan_null w').
Proof.
  intros H. unfold block_release0.
  rewrite (bind_Ret _ _ _ _ _ (block_is_unique_at _ _ _ _ H)).
  split; intros Hrc.
  - apply Z.eqb_eq in Hrc. rewrite Hrc. apply (orphan_block_at _ _ _ _ H).
  - apply Z.eqb_neq in Hrc. rewrite Hrc.
    destruct (drop_block_calls _ _ _ _ H) as (w' & E & _).
    exists w'. split; [exact E |].
    rewrite (bind_Ret _ _ _ _ _ E). reflexivity.
Qed.

(** C3, as the code has it.  [block_release1] drops the field only when
    the block is unique: it then calls [drop_boxed] on the field and
    returns the block as an orphan.  When the block is not unique it is
    [drop_block] on the block alone: the value returned is
    [orphan_null()], whatever the field is, and the only call that can be
    made is the one to [block_check_free] on the block. *)
Theorem block_release1_drops_field_iff_unique w b h fs (f : box_t) :
  block_at w b h fs ->
  (refcount h = 0 ->
     block_release1 b f w = (drop_boxed f ;; orphan_block b) w)
  /\ (refcount h <> 0 ->
     exists w', drop_block b w = Ret tt w' /\
                block_release1 b f w = Ret orphan_null w' /\
                (calls w' = calls w \/
                 calls w' = call_block_check_free b :: calls w)).
Proof.
  intros H. unfold block_release1.
  rewrite (bind_Ret _ _ _ _ _ (block_is_unique_at _ _ _ _ H)).
  split; intros Hrc.
  - apply Z.eqb_eq in Hrc. rewrite Hrc. reflexivity.
  - apply Z.eqb_neq in Hrc. rewrite Hrc.
    destruct (drop_block_calls _ _ _ _ H) as (w' & E & Hc).
    exists w'. split; [exact E |]. split; [| exact Hc].
    rewrite (bind_Ret _ _ _ _ _ E). reflexivity.
Qed.

(** ** Allocation *)

Lemma assert_internal_holds (c : M bool) w :
  c w = Ret true w -> assert_internal c w = Ret tt w.
Proof.
  intros H. unfold assert_internal. destruct assertions; [| reflexivity].
  rewrite (bind_Ret _ _ _ _ _ H). reflexivity.
Qed.

Lemma assert_internal_fails (c : M bool) w :
  assertions = true -> c w = Ret false w -> assert_internal c w = Abort.
Proof.
  intros Ha H. unfold assert_internal. rewrite Ha.
  rewrite (bind_Ret _ _ _ _ _ H). reflexivity.
Qed.

Lemma assert_internal_off (c : M bool) w :
  assertions = false -> assert_internal c w = Ret tt w.
Proof. intros Ha. unfold assert_internal. rewrite Ha. reflexivity. Qed.

Lemma malloc_addr_fresh (hp : gmap Z block_t) : hp !! malloc_addr hp = None.
Proof.
  unfold malloc_addr.
  set (used := ({[0]} : gset Z) ∪ set_map (fun a => Z.div a 16) (dom hp)).
  pose proof (is_fresh used) as Hfresh.
  destruct (hp !! (16 * fresh used)) as [blk |] eqn:E; [| exact E].
  exfalso. apply Hfresh. apply elem_of_union_r, elem_of_map.
  exists (16 * fresh used). split.
  - rewrite Z.mul_comm, Z.div_mul by lia. reflexivity.
  - apply elem_of_dom. exists blk. exact E.
Qed.

Lemma malloc_addr_not_null (hp : gmap Z block_t) : malloc_addr hp <> 0.
Proof.
  unfold malloc_addr.
  set (used := ({[0]} : gset Z) ∪ set_map (fun a => Z.div a 16) (dom hp)).
  pose proof (is_fresh used) as Hfresh. intros E.
  apply Hfresh. apply elem_of_union_l, elem_of_singleton. lia.
Qed.

Lemma runtime_malloc_eq (sz : Z) w :
  sizeof_header_t <= sz ->
  let p := malloc_addr (heap w) in
  runtime_malloc sz w =
  Ret p (poke p (Block None (replicate (Z.to_nat ((sz - sizeof_header_t) / sizeof_box_t)) None))
                (with_call (call_malloc sz p) w)).
Proof.
  intros Hsz p. unfold runtime_malloc.
  rewrite (proj2 (Z.ltb_ge sz sizeof_header_t) Hsz). reflexivity.
Qed.

(** Storage smaller than a header: the pointer comes back, but there is
    no block behind it. *)
Lemma runtime_malloc_small (sz : Z) w :
  sz < sizeof_header_t ->
  runtime_malloc sz w =
  Ret (malloc_addr (heap w)) (with_call (call_malloc sz (malloc_addr (heap w))) w).
Proof.
  intros Hsz. unfold runtime_malloc.
  rewrite (proj2 (Z.ltb_lt sz sizeof_header_t) Hsz). reflexivity.
Qed.

Lemma store_header_nowhere w c (b : ptr) (h : header_t) :
  heap w !! b = None -> store_header b h (with_call c w) = Undef.
Proof. intros H. unfold store_header, with_call. cbn [heap]. rewrite H. reflexivity. Qed.

Lemma u8_small x : 0 <= x < 256 -> u8 x = x.
Proof. intros H. unfold u8, wrap. apply Z.mod_small. lia. Qed.

Lemma u16_small x : 0 <= x < 65536 -> u16 x = x.
Proof. intros H. unfold u16, wrap. apply Z.mod_small. lia. Qed.

(** [block_init] overwrites the header of whatever storage is at [b]. *)
Lemma block_init_on w b blk size fsize tg :
  heap w !! b = Some blk -> assertions = false \/ fsize < SCAN_FSIZE_MAX ->
  block_init b size fsize tg w =
  Ret tt (poke b (Block (Some (Header 0 (u16 tg) (u8 fsize) false)) (fields blk)) w).
Proof.
  intros H Hs. unfold block_init.
  rewrite (bind_Ret _ _ _ tt w).
  - unfold store_header. rewrite H. reflexivity.
  - destruct Hs as [Hoff | Hs]; [apply assert_internal_off, Hoff |].
    apply assert_internal_holds. unfold ret. f_equal. apply Z.ltb_lt. exact Hs.
Qed.

(** [block_alloc] when its assertion passes or is compiled out. *)
Lemma block_alloc_unchecked w size fsize tg :
  sizeof_header_t <= size ->
  assertions = false \/ fsize < SCAN_FSIZE_MAX ->
  let p := malloc_addr (heap w) in
  let fs := replicate (Z.to_nat ((size - sizeof_header_t) / sizeof_box_t)) None in
  block_alloc size fsize tg w =
  Ret p (World (<[p := Block (Some (Header 0 (u16 tg) (u8 fsize) false)) fs]> (heap w))
               (call_malloc size p :: calls w)).
Proof.
  intros Hsz Hs p fs. unfold block_alloc.
  rewrite (bind_Ret _ _ _ tt w).
  2:{ destruct Hs as [Hoff | Hs]; [apply assert_internal_off, Hoff |].
      apply assert_internal_holds. unfold ret. f_equal. apply Z.ltb_lt. exact Hs. }
  rewrite (bind_Ret _ _ _ _ _ (runtime_malloc_eq size w Hsz)). fold p. fold fs.
  set (w1 := poke p (Block None fs) (with_call (call_malloc size p) w)).
  rewrite (bind_Ret _ _ _ tt
             (poke p (Block (Some (Header 0 (u16 tg) (u8 fsize) false)) fs) w1)).
  - unfold w1. rewrite poke_poke. reflexivity.
  - apply (block_init_on w1 p (Block None fs)); [| exact Hs].
    unfold w1. apply heap_poke.
Qed.

(** [block_alloc] of fewer bytes than a header stores the header outside
    the allocation. *)
Lemma block_alloc_too_small w size fsize tg :
  size < sizeof_header_t ->
  assertions = false \/ fsize < SCAN_FSIZE_MAX ->
  block_alloc size fsize tg w = Undef.
Proof.
  intros Hsz Hs. unfold block_alloc.
  rewrite (bind_Ret _ _ _ tt w).
  2:{ destruct Hs as [Hoff | Hs]; [apply assert_internal_off, Hoff |].
      apply assert_internal_holds. unfold ret. f_equal. apply Z.ltb_lt. exact Hs. }
  rewrite (bind_Ret _ _ _ _ _ (runtime_malloc_small size w Hsz)).
  rewrite bind_eq. unfold block_init.
  rewrite (bind_Ret _ _ _ tt (with_call (call_malloc size (malloc_addr (heap w))) w)).
  2:{ destruct Hs as [Hoff | Hs]; [apply assert_internal_off, Hoff |].
      apply assert_internal_holds. unfold ret. f_equal. apply Z.ltb_lt. exact Hs. }
  rewrite (store_header_nowhere _ _ _ _ (malloc_addr_fresh (heap w))). reflexivity.
Qed.

Lemma block_alloc_fresh w size fsize tg :
  sizeof_header_t <= size ->
  0 <= fsize < SCAN_FSIZE_MAX -> 0 <= tg < 65536 ->
  let p := malloc_addr (heap w) in
  let fs := replicate (Z.to_nat ((size - sizeof_header_t) / sizeof_box_t)) None in
  block_alloc size fsize tg w =
  Ret p (World (<[p := Block (Some (HEADER fsize tg)) fs]> (heap w))
               (call_malloc size p :: calls w)).
Proof.
  intros Hsz Hs Ht p fs.
  rewrite (block_alloc_unchecked w size fsize tg Hsz) by (right; lia).
  rewrite u16_small, u8_small by (unfold SCAN_FSIZE_MAX in *; lia).
  reflexivity.
Qed.

(** C6.  For a scan count below 255 and a tag of the enumeration,
    [block_alloc_reuse] returns a block whose header is the one that
    [block_alloc] gives a fresh block: count 0, the tag, the scan count,
    thread-shared flag clear.  A non-empty orphan is initialised in
    place: the same address is returned, its fields are kept, nothing is
    called and the size is not looked at.  On the empty orphan the call
    is [block_alloc]: for a size that holds the header, storage that was
    not live before comes from [malloc]; for a smaller size the header
    is stored outside the allocation. *)
Theorem block_alloc_reuse_as_fresh w (o : ptr) (size s t : Z) :
  0 <= s < SCAN_FSIZE_MAX -> TAG_INVALID <= t <= TAG_LAST ->
  (forall h fs, o <> orphan_null -> block_at w o h fs -> refcount h = 0 ->
     block_alloc_reuse o size s t w =
     Ret o (poke o (Block (Some (HEADER s t)) fs) w))
  /\ (o = orphan_null ->
     block_alloc_reuse o size s t w = block_alloc size s t w)
  /\ (sizeof_header_t <= size ->
     exists p w' fs',
       block_alloc size s t w = Ret p w' /\
       heap w !! p = None /\
       block_at w' p (HEADER s t) fs' /\
       calls w' = call_malloc size p :: calls w)
  /\ (size < sizeof_header_t -> block_alloc size s t w = Undef).
Proof.
  intros Hs Ht.
  assert (Ht' : 0 <= t < 65536).
  { pose proof TAG_LAST_fits. unfold TAG_INVALID in Ht. lia. }
  split; [| split; [| split]].
  - intros h fs Ho H Hrc. unfold block_alloc_reuse.
    apply Z.eqb_neq in Ho. rewrite Ho. cbn [negb].
    rewrite (bind_Ret _ _ _ o w).
    2:{ rewrite (bind_Ret _ _ _ tt w); [reflexivity |].
        apply assert_internal_holds.
        rewrite (block_is_unique_at _ _ _ _ H), Hrc. reflexivity. }
    rewrite (bind_Ret _ _ _ _ _ (block_init_on w o _ size s t H ltac:(right; lia))).
    cbn [fields]. rewrite u16_small, u8_small by (unfold SCAN_FSIZE_MAX in *; lia).
    reflexivity.
  - intros ->. unfold block_alloc_reuse, block_alloc.
    rewrite Z.eqb_refl. cbn [negb].
    rewrite (bind_Ret _ _ _ tt w); [reflexivity |].
    apply assert_internal_holds. unfold ret. f_equal. apply Z.ltb_lt. lia.
  - intros Hsz. rewrite (block_alloc_fresh w size s t Hsz Hs Ht').
    eexists _, _, _. split; [reflexivity |]. split; [apply malloc_addr_fresh |].
    split; [| reflexivity].
    unfold block_at. cbn [heap]. apply lookup_insert_eq.
  - intros Hsz. apply (block_alloc_too_small w size s t Hsz). right. lia.
Qed.

(** ** Boxed enumerations and the scan count *)

Lemma unbox_box_enum (n : Z) :
  0 <= n < 2 ^ (word_bits - 2) -> unbox_enum (box_enum n) = n.
Proof.
  intros Hn.
  assert (Hw : 0 <= word_bits - 2).
  { destruct (Z.lt_ge_cases (word_bits - 2) 0) as [Hneg | Hge]; [| exact Hge].
    rewrite (Z.pow_neg_r 2 _ Hneg) in Hn. lia. }
  unfold unbox_enum, box_enum, uintx, wrap.
  apply Z.bits_inj'. intros i Hi. rewrite Z.shiftr_spec by exact Hi.
  destruct (Z.lt_ge_cases (i + 2) word_bits) as [Hlow | Hhigh].
  - rewrite Z.mod_pow2_bits_low by exact Hlow.
    rewrite Z.lor_spec, Z.shiftl_spec by lia.
    replace (i + 2 - 2) with i by lia.
    rewrite (Z.bits_above_log2 3 (i + 2)) by (cbn; lia).
    apply orb_false_r.
  - rewrite Z.mod_pow2_bits_high by lia.
    rewrite <- (Z.mod_small n (2 ^ (word_bits - 2))) by exact Hn.
    symmetry. apply Z.mod_pow2_bits_high. lia.
Qed.

Lemma block_large_init_on w b ho f0 fs size n tg :
  heap w !! b = Some (Block ho (f0 :: fs)) ->
  block_large_init b size n tg w =
  Ret tt (poke b (Block (Some (Header 0 (u16 tg) SCAN_FSIZE_MAX false))
                        (Some (box_enum n) :: fs)) w).
Proof.
  intros H. unfold block_large_init.
  rewrite (bind_Ret _ _ _ tt
             (poke b (Block (Some (Header 0 (u16 tg) SCAN_FSIZE_MAX false)) (f0 :: fs)) w)).
  - unfold store_field, poke, with_heap. cbn [heap calls].
    rewrite lookup_insert_eq. cbn [fields length header].
    destruct (decide (0 < S (length fs))%nat) as [_ | Hbad]; [| lia].
    rewrite insert_insert_eq. reflexivity.
  - unfold store_header. rewrite H. reflexivity.
Qed.

Lemma block_scan_fsize_inline w b h fs :
  block_at w b h fs -> scan_fsize h <> SCAN_FSIZE_MAX ->
  block_scan_fsize b w = Ret (scan_fsize h) w.
Proof.
  intros H Hs. unfold block_scan_fsize.
  rewrite (bind_Ret _ _ _ _ _ (load_header_at _ _ _ _ H)).
  apply Z.eqb_neq in Hs. rewrite Hs. reflexivity.
Qed.

Lemma block_scan_fsize_large w b h v fs :
  block_at w b h (Some v :: fs) -> scan_fsize h = SCAN_FSIZE_MAX ->
  block_scan_fsize b w = Ret (unbox_enum v) w.
Proof.
  intros H Hs. unfold block_scan_fsize.
  rewrite (bind_Ret _ _ _ _ _ (load_header_at _ _ _ _ H)).
  rewrite Hs, Z.eqb_refl. cbn [negb].
  unfold load_field. rewrite bind_eq. unfold block_at in H. rewrite H. reflexivity.
Qed.

(** [block_large_alloc] for a size that leaves room for the field after
    the header. *)
Lemma block_large_alloc_on w (size fsize tg : Z) (k : nat) :
  sizeof_header_t <= uintx (size + 1) ->
  Z.to_nat ((uintx (size + 1) - sizeof_header_t) / sizeof_box_t) = S k ->
  let p := malloc_addr (heap w) in
  block_large_alloc size fsize tg w =
  Ret p (poke p (Block (Some (Header 0 (u16 tg) SCAN_FSIZE_MAX false))
                       (Some (box_enum fsize) :: replicate k None))
                (with_call (call_malloc (uintx (size + 1)) p) w)).
Proof.
  intros Hsz Hk p. unfold block_large_alloc.
  rewrite (bind_Ret _ _ _ _ _ (runtime_malloc_eq _ w Hsz)). fold p. rewrite Hk.
  set (w0 := with_call _ w). set (w1 := poke p _ w0).
  assert (H1 : heap w1 !! p = Some (Block None (None :: replicate k None)))
    by apply heap_poke.
  rewrite (bind_Ret _ _ _ _ _ (block_large_init_on _ _ _ _ _ size fsize tg H1)).
  unfold w1. rewrite poke_poke. reflexivity.
Qed.

(** C4.  [block_large_init] stores the scan count as the boxed field
    after the header and sets the inline count to the sentinel 0xFF;
    [block_scan_fsize] then returns the count it was given, for every
    count that a boxed enumeration can hold, among them 255, 256 and
    100000 on a platform with pointers of four bytes or more.  On a block
    whose inline count is not the sentinel, [block_scan_fsize] returns
    the inline count.  The same holds from [block_large_alloc] on, for a
    size that has room for the field after the header. *)
Theorem large_scan_fsize_roundtrip w b (size tg : Z) :
  (forall ho f0 fs n,
     heap w !! b = Some (Block ho (f0 :: fs)) ->
     0 <= n < 2 ^ (word_bits - 2) ->
     (block_large_init b size n tg ;; block_scan_fsize b) w =
     Ret n (poke b (Block (Some (Header 0 (u16 tg) SCAN_FSIZE_MAX false))
                          (Some (box_enum n) :: fs)) w))
  /\ (4 <= INTPTR_SIZE ->
     forall ho f0 fs n,
       heap w !! b = Some (Block ho (f0 :: fs)) ->
       n = 255 \/ n = 256 \/ n = 100000 ->
       (block_large_init b size n tg ;; block_scan_fsize b) w =
       Ret n (poke b (Block (Some (Header 0 (u16 tg) SCAN_FSIZE_MAX false))
                            (Some (box_enum n) :: fs)) w))
  /\ (forall h fs,
       block_at w b h fs -> scan_fsize h < SCAN_FSIZE_MAX ->
       block_scan_fsize b w = Ret (scan_fsize h) w)
  /\ (forall n (k : nat),
       Z.to_nat ((uintx (size + 1) - sizeof_header_t) / sizeof_box_t) = S k ->
       0 <= n < 2 ^ (word_bits - 2) ->
       exists p w',
         block_large_alloc size n tg w = Ret p w' /\
         heap w !! p = None /\
         block_scan_fsize p w' = Ret n w').
Proof.
  assert (Hgen : forall ho f0 fs n,
     heap w !! b = Some (Block ho (f0 :: fs)) ->
     0 <= n < 2 ^ (word_bits - 2) ->
     (block_large_init b size n tg ;; block_scan_fsize b) w =
     Ret n (poke b (Block (Some (Header 0 (u16 tg) SCAN_FSIZE_MAX false))
                          (Some (box_enum n) :: fs)) w)).
  { intros ho f0 fs n H Hn.
    rewrite (bind_Ret _ _ _ _ _ (block_large_init_on _ _ _ _ _ size n tg H)).
    rewrite (block_scan_fsize_large _ b (Header 0 (u16 tg) SCAN_FSIZE_MAX false)
               (box_enum n) fs).
    - rewrite (unbox_box_enum n Hn). reflexivity.
    - apply block_at_poke. reflexivity.
    - reflexivity. }
  split; [exact Hgen |]. split.
  { intros Hp ho f0 fs n H Hn. apply (Hgen ho f0 fs n H).
    assert (Hpow : 2 ^ 30 <= 2 ^ (word_bits - 2)).
    { apply Z.pow_le_mono_r; unfold word_bits; lia. }
    lia. }
  split.
  - intros h fs H Hs. apply (block_scan_fsize_inline _ _ _ _ H). lia.
  - intros n k Hk Hn.
    assert (Hsz : sizeof_header_t <= uintx (size + 1)).
    { assert (HW : 0 < sizeof_box_t).
      { unfold sizeof_box_t.
        destruct (Z.lt_ge_cases (word_bits - 2) 0) as [Hneg | Hge].
        - rewrite (Z.pow_neg_r 2 _ Hneg) in Hn. lia.
        - unfold word_bits in Hge. lia. }
      destruct (Z.lt_ge_cases (uintx (size + 1)) sizeof_header_t) as [Hlt | Hge];
        [| exact Hge].
      assert (Hq : (uintx (size + 1) - sizeof_header_t) / sizeof_box_t < 1)
        by (apply Z.div_lt_upper_bound; lia).
      lia. }
    rewrite (block_large_alloc_on w size n tg k Hsz Hk).
    eexists _, _. split; [reflexivity |]. split; [apply malloc_addr_fresh |].
    erewrite block_scan_fsize_large; [| apply heap_poke | reflexivity].
    rewrite (unbox_box_enum n Hn). reflexivity.
Qed.

(** ** Boxed vectors *)

Lemma block_tag_at w b h fs : block_at w b h fs -> block_tag b w = Ret (tag h) w.
Proof.
  intros H. unfold block_tag.
  rewrite (bind_Ret _ _ _ _ _ (load_header_at _ _ _ _ H)). reflexivity.
Qed.

(** Boxing the vector with [box_ptr], as the body of [box_vector_t]
    computes it, is undone by [unbox_vector_t]. *)
Lemma unbox_vector_t_box_ptr w v h fs :
  block_at w v h fs -> tag h = TAG_VECTOR_SMALL \/ tag h = TAG_VECTOR ->
  unbox_vector_t (box_ptr v) w = Ret v w.
Proof.
  intros H Ht. unfold unbox_vector_t, box_ptr, unbox_ptr.
  rewrite (bind_Ret _ _ _ tt w); [reflexivity |].
  apply assert_internal_holds.
  rewrite (bind_Ret _ _ _ _ _ (block_tag_at _ _ _ _ H)).
  unfold ret. f_equal.
  destruct Ht as [-> | ->]; reflexivity.
Qed.

(** C9, at the code.  [box_vector_t] returns without a value on every
    vector, so that unboxing what it returned is undefined: the pair does
    not give the vector back. *)
Theorem box_vector_t_yields_no_value (v : ptr) (w : world) :
  box_vector_t v w = Ret None w
  /\ (bx ← use_value (box_vector_t v); unbox_vector_t bx) w = Undef.
Proof. split; reflexivity. Qed.

(** ** Vectors *)

(** The loop that fills a vector writes [def] into [count] consecutive
    fields. *)
Lemma for_range_store_field (v : ptr) (off : nat) (def : box_t) (count : nat) :
  forall (start : nat) w ho fs,
    heap w !! v = Some (Block ho fs) ->
    (off + start + count <= length fs)%nat ->
    for_range start count (fun i => store_field v (off + i) def) w =
    Ret tt (poke v (Block ho (filled (off + start) count (Some def) fs)) w).
Proof.
  induction count as [| c IH]; intros start w ho fs H Hlen.
  - cbn [for_range filled]. unfold ret. rewrite (poke_id _ _ _ H). reflexivity.
  - cbn [for_range filled].
    rewrite (bind_Ret _ _ _ _ _ (store_field_on _ _ _ _ (off + start) def H ltac:(lia))).
    rewrite (IH (S start) _ ho (<[(off + start)%nat := Some def]> fs)).
    + rewrite poke_poke, Nat.add_succ_r. reflexivity.
    + apply heap_poke.
    + rewrite length_insert. lia.
Qed.

Lemma filled_replicate (count : nat) :
  forall (pre : list (option box_t)) (x : option box_t),
    filled (length pre) count x (pre ++ replicate count None) =
    pre ++ replicate count x.
Proof.
  induction count as [| c IH]; intros pre x.
  - reflexivity.
  - cbn [filled replicate].
    assert (E : <[length pre := x]> (pre ++ None :: replicate c None)
                = (pre ++ [x]) ++ replicate c None).
    { rewrite insert_app_r_alt by lia. rewrite Nat.sub_diag.
      rewrite <- app_assoc. reflexivity. }
    rewrite E.
    replace (S (length pre)) with (length (pre ++ [x])) by (rewrite length_app; cbn; lia).
    rewrite IH, <- app_assoc. reflexivity.
Qed.

Lemma uintx_small (x : Z) :
  INTPTR_SIZE = 4 \/ INTPTR_SIZE = 8 -> 0 <= x < 2 ^ 32 -> uintx x = x.
Proof.
  intros Harch Hx. unfold uintx, wrap, word_bits. apply Z.mod_small.
  destruct Harch as [-> | ->]; lia.
Qed.

Lemma vector_len_small w v h l fs :
  block_at w v h (Some l :: fs) -> tag h = TAG_VECTOR_SMALL ->
  vector_len v w = Ret (unbox_enum l) w.
Proof.
  intros H Ht. unfold vector_len.
  rewrite (bind_Ret _ _ _ _ _ (block_tag_at _ _ _ _ H)), Ht, Z.eqb_refl.
  rewrite (bind_Ret _ _ _ v w).
  - rewrite (bind_Ret _ _ _ _ _ (load_field_on _ _ _ _ small_length l H eq_refl)).
    reflexivity.
  - unfold block_as. rewrite (bind_Ret _ _ _ tt w); [reflexivity |].
    apply assert_internal_holds.
    rewrite (bind_Ret _ _ _ _ _ (block_tag_at _ _ _ _ H)), Ht.
    unfold ret. rewrite Z.eqb_refl. reflexivity.
Qed.

Lemma vector_len_large w v h f0 l fs :
  block_at w v h (f0 :: Some l :: fs) -> tag h = TAG_VECTOR ->
  vector_len v w = Ret (unbox_enum l) w.
Proof.
  intros H Ht. unfold vector_len.
  rewrite (bind_Ret _ _ _ _ _ (block_tag_at _ _ _ _ H)), Ht.
  change (TAG_VECTOR =? TAG_VECTOR_SMALL) with false. cbv iota.
  rewrite (bind_Ret _ _ _ v w).
  - rewrite (bind_Ret _ _ _ _ _ (load_field_on _ _ _ _ large_length l H eq_refl)).
    reflexivity.
  - unfold block_as. rewrite (bind_Ret _ _ _ tt w); [reflexivity |].
    apply assert_internal_holds.
    rewrite (bind_Ret _ _ _ _ _ (block_tag_at _ _ _ _ H)), Ht.
    unfold ret. rewrite Z.eqb_refl. reflexivity.
Qed.

(** The small branch of [vector_alloc], when the assertion of
    [block_alloc] passes or is compiled out. *)
Lemma vector_alloc_small_on w (n : Z) (def : box_t) :
  INTPTR_SIZE = 4 \/ INTPTR_SIZE = 8 ->
  0 < n < SCAN_FSIZE_MAX -> assertions = false \/ n < 254 ->
  let p := malloc_addr (heap w) in
  vector_alloc n def w =
  Ret p (poke p (Block (Some (Header 0 TAG_VECTOR_SMALL (1 + n) false))
                       (Some (box_enum n) :: initial_elements n def))
                (with_call (call_malloc (8 + (n + 1) * INTPTR_SIZE) p) w)).
Proof.
  intros Harch Hn Hassert p. unfold SCAN_FSIZE_MAX in Hn. unfold vector_alloc.
  assert (E0 : (n =? 0) = false) by (apply Z.eqb_neq; lia).
  assert (E1 : (n <? SCAN_FSIZE_MAX) = true) by (apply Z.ltb_lt; unfold SCAN_FSIZE_MAX; lia).
  rewrite E0, E1.
  assert (Esz : uintx (sizeof_vector_small_s + uintx ((n - 1) * sizeof_box_t))
                = 8 + (n + 1) * INTPTR_SIZE).
  { unfold sizeof_vector_small_s, sizeof_header_t, sizeof_box_t.
    rewrite (uintx_small ((n - 1) * INTPTR_SIZE)) by (trivial; destruct Harch as [-> | ->]; lia).
    rewrite uintx_small by (trivial; destruct Harch as [-> | ->]; lia). lia. }
  assert (Efs : uintx (1 + n) = 1 + n) by (apply uintx_small; [exact Harch | lia]).
  rewrite Esz, Efs.
  assert (Hchk : assertions = false \/ 1 + n < SCAN_FSIZE_MAX).
  { destruct Hassert as [Hoff | Hlt]; [left; exact Hoff | right; unfold SCAN_FSIZE_MAX; lia]. }
  assert (Hroom : sizeof_header_t <= 8 + (n + 1) * INTPTR_SIZE)
    by (unfold sizeof_header_t; destruct Harch; nia).
  rewrite (bind_Ret _ _ _ _ _
             (block_alloc_unchecked w _ (1 + n) TAG_VECTOR_SMALL Hroom Hchk)).
  fold p.
  assert (Ecount : Z.to_nat ((8 + (n + 1) * INTPTR_SIZE - sizeof_header_t) / sizeof_box_t)
                   = S (Z.to_nat n)).
  { unfold sizeof_header_t, sizeof_box_t.
    replace (8 + (n + 1) * INTPTR_SIZE - 8) with ((n + 1) * INTPTR_SIZE) by lia.
    rewrite Z.div_mul by (destruct Harch as [-> | ->]; lia). lia. }
  rewrite Ecount, (u8_small (1 + n)) by lia.
  change (u16 TAG_VECTOR_SMALL) with TAG_VECTOR_SMALL.
  set (hd := Header 0 TAG_VECTOR_SMALL (1 + n) false).
  set (w0 := with_call (call_malloc (8 + (n + 1) * INTPTR_SIZE) p) w).
  change (World _ _) with (poke p (Block (Some hd) (replicate (S (Z.to_nat n)) None)) w0).
  set (w1 := poke p _ w0).
  assert (H1 : block_at w1 p hd (None :: replicate (Z.to_nat n) None)) by apply heap_poke.
  (* block_as *)
  rewrite (bind_Ret _ _ _ p w1).
  2:{ unfold block_as. rewrite (bind_Ret _ _ _ tt w1); [reflexivity |].
      apply assert_internal_holds.
      rewrite (bind_Ret _ _ _ _ _ (block_tag_at _ _ _ _ H1)). reflexivity. }
  (* v->length = box_enum(length) *)
  rewrite (bind_Ret _ _ _ _ _ (store_field_on _ _ _ _ small_length (box_enum n) H1
                                 ltac:(unfold small_length; cbn [length]; lia))).
  unfold w1. rewrite poke_poke. cbn [small_length insert list_insert].
  set (w2 := poke p _ w0).
  assert (H2 : heap w2 !! p = Some (Block (Some hd) (Some (box_enum n) :: replicate (Z.to_nat n) None)))
    by apply heap_poke.
  unfold initial_elements.
  destruct (def =? box_null); cbn [negb].
  - reflexivity.
  - rewrite (bind_Ret _ _ _ tt
               (poke p (Block (Some hd) (Some (box_enum n) :: replicate (Z.to_nat n) (Some def))) w0)).
    + reflexivity.
    + change (fun i => store_field p (small_vec i) def)
        with (fun i => store_field p (1 + i)%nat def).
      rewrite (for_range_store_field p 1 def (Z.to_nat n) 0%nat w2 _ _ H2)
        by (cbn [length]; rewrite length_replicate; lia).
      unfold w2. rewrite poke_poke.
      change (1 + 0)%nat with (length [Some (box_enum n)]).
      change (Some (box_enum n) :: replicate (Z.to_nat n) None)
        with ([Some (box_enum n)] ++ replicate (Z.to_nat n) (None : option box_t)).
      rewrite filled_replicate. reflexivity.
Qed.

Lemma word_bits_cases :
  INTPTR_SIZE = 4 \/ INTPTR_SIZE = 8 -> 2 ^ word_bits = 2 ^ 32 \/ 2 ^ word_bits = 2 ^ 64.
Proof. unfold word_bits. intros [-> | ->]; [left | right]; reflexivity. Qed.

Lemma uintx_fits (x : Z) : 0 <= x < 2 ^ word_bits -> uintx x = x.
Proof. intros Hx. unfold uintx, wrap. apply Z.mod_small. exact Hx. Qed.

(** The large branch of [vector_alloc], for a length whose allocation
    size fits [size_t]. *)
Lemma vector_alloc_large_on w (n : Z) (def : box_t) :
  INTPTR_SIZE = 4 \/ INTPTR_SIZE = 8 ->
  SCAN_FSIZE_MAX <= n -> 8 + (n + 2) * INTPTR_SIZE + 1 < 2 ^ word_bits ->
  let p := malloc_addr (heap w) in
  vector_alloc n def w =
  Ret p (poke p (Block (Some (Header 0 TAG_VECTOR SCAN_FSIZE_MAX false))
                       (Some (box_enum (1 + n)) :: Some (box_enum n)
                          :: initial_elements n def))
                (with_call (call_malloc (8 + (n + 2) * INTPTR_SIZE + 1) p) w)).
Proof.
  intros Harch Hn Hfit p. unfold SCAN_FSIZE_MAX in Hn. unfold vector_alloc.
  assert (E0 : (n =? 0) = false) by (apply Z.eqb_neq; lia).
  assert (E1 : (n <? SCAN_FSIZE_MAX) = false) by (apply Z.ltb_ge; unfold SCAN_FSIZE_MAX; lia).
  rewrite E0, E1.
  assert (Hpos : 4 <= INTPTR_SIZE) by (destruct Harch; lia).
  assert (Esz : uintx (sizeof_vector_large_s + uintx ((n - 1) * sizeof_box_t))
                = 8 + (n + 2) * INTPTR_SIZE).
  { unfold sizeof_vector_large_s, sizeof_header_t, sizeof_box_t.
    rewrite (uintx_fits ((n - 1) * INTPTR_SIZE)) by nia.
    rewrite uintx_fits by nia. lia. }
  assert (Efs : uintx (1 + n) = 1 + n) by (apply uintx_fits; nia).
  rewrite Esz, Efs.
  assert (Ecount : Z.to_nat ((uintx (8 + (n + 2) * INTPTR_SIZE + 1) - sizeof_header_t)
                             / sizeof_box_t)
                   = S (S (Z.to_nat n))).
  { rewrite (uintx_fits (8 + (n + 2) * INTPTR_SIZE + 1)) by nia.
    unfold sizeof_header_t, sizeof_box_t.
    replace (8 + (n + 2) * INTPTR_SIZE + 1 - 8) with ((n + 2) * INTPTR_SIZE + 1) by lia.
    rewrite Z.div_add_l, (Z.div_small 1 INTPTR_SIZE) by lia. lia. }
  assert (Hroom : sizeof_header_t <= uintx (8 + (n + 2) * INTPTR_SIZE + 1)).
  { rewrite (uintx_fits (8 + (n + 2) * INTPTR_SIZE + 1)) by nia.
    unfold sizeof_header_t. nia. }
  rewrite (bind_Ret _ _ _ _ _
             (block_large_alloc_on w _ (1 + n) TAG_VECTOR _ Hroom Ecount)).
  fold p. rewrite (uintx_fits (8 + (n + 2) * INTPTR_SIZE + 1)) by nia.
  change (u16 TAG_VECTOR) with TAG_VECTOR. cbn [replicate].
  set (w0 := with_call (call_malloc (8 + (n + 2) * INTPTR_SIZE + 1) p) w).
  set (hd := Header 0 TAG_VECTOR SCAN_FSIZE_MAX false).
  set (w2 := poke p _ w0).
  assert (H2 : heap w2 !! p
               = Some (Block (Some hd) (Some (box_enum (1 + n)) :: None
                                          :: replicate (Z.to_nat n) None)))
    by apply heap_poke.
  rewrite (bind_Ret _ _ _ _ _ (store_field_on _ _ _ _ large_length (box_enum n) H2
                                 ltac:(unfold large_length; cbn [length]; lia))).
  unfold w2. rewrite poke_poke. cbn [large_length insert list_insert].
  set (w3 := poke p _ w0).
  assert (H3 : heap w3 !! p
               = Some (Block (Some hd) (Some (box_enum (1 + n)) :: Some (box_enum n)
                                          :: replicate (Z.to_nat n) None)))
    by apply heap_poke.
  unfold initial_elements.
  destruct (def =? box_null); cbn [negb].
  - reflexivity.
  - rewrite (bind_Ret _ _ _ tt
               (poke p (Block (Some hd) (Some (box_enum (1 + n)) :: Some (box_enum n)
                                          :: replicate (Z.to_nat n) (Some def))) w0)).
    + reflexivity.
    + change (fun i => store_field p (large_vec i) def)
        with (fun i => store_field p (2 + i)%nat def).
      rewrite (for_range_store_field p 2 def (Z.to_nat n) 0%nat w3 _ _ H3)
        by (cbn [length]; rewrite length_replicate; lia).
      unfold w3. rewrite poke_poke.
      change (2 + 0)%nat with (length [Some (box_enum (1 + n)); Some (box_enum n)]).
      change (Some (box_enum (1 + n)) :: Some (box_enum n) :: replicate (Z.to_nat n) None)
        with ([Some (box_enum (1 + n)); Some (box_enum n)]
                ++ replicate (Z.to_nat n) (None : option box_t)).
      rewrite filled_replicate. reflexivity.
Qed.

(** For [length == 0] nothing is allocated: the call is a [dup_block] of
    the shared [vector_empty]. *)
Lemma vector_alloc_empty w (def : box_t) :
  vector_alloc 0 def w = dup_block vector_empty w.
Proof. reflexivity. Qed.

(** Away from length 254 (or with the assertions compiled out),
    [vector_len] reads back the length that a non-empty [vector_alloc]
    was given. *)
Lemma vector_len_vector_alloc w (n : Z) (def : box_t) :
  INTPTR_SIZE = 4 \/ INTPTR_SIZE = 8 ->
  0 < n -> assertions = false \/ n <> 254 ->
  8 + (n + 2) * INTPTR_SIZE + 1 < 2 ^ word_bits ->
  exists p w', vector_alloc n def w = Ret p w' /\
               heap w !! p = None /\
               vector_len p w' = Ret n w'.
Proof.
  intros Harch Hn Hok Hfit.
  assert (Hrep : 0 <= n < 2 ^ (word_bits - 2)).
  { assert (Hw : 2 ^ word_bits = 4 * 2 ^ (word_bits - 2)).
    { replace word_bits with (2 + (word_bits - 2)) at 1 by lia.
      rewrite Z.pow_add_r; [reflexivity | lia |].
      unfold word_bits. destruct Harch; lia. }
    destruct Harch; nia. }
  destruct (Z.lt_ge_cases n SCAN_FSIZE_MAX) as [Hsmall | Hlarge].
  - assert (Hchk : assertions = false \/ n < 254).
    { destruct Hok as [Hoff | Hne]; [left; exact Hoff |].
      right. unfold SCAN_FSIZE_MAX in Hsmall. lia. }
    rewrite (vector_alloc_small_on w n def Harch ltac:(lia) Hchk).
    eexists _, _. split; [reflexivity |]. split; [apply malloc_addr_fresh |].
    erewrite vector_len_small; [| apply heap_poke | reflexivity].
    rewrite (unbox_box_enum n Hrep). reflexivity.
  - rewrite (vector_alloc_large_on w n def Harch Hlarge Hfit).
    eexists _, _. split; [reflexivity |]. split; [apply malloc_addr_fresh |].
    erewrite vector_len_large; [| apply heap_poke | reflexivity].
    rewrite (unbox_box_enum n Hrep). reflexivity.
Qed.

(** C10, at the code.  For length 254 [vector_alloc] takes the small
    branch and asks [block_alloc] for 255 scan fields, which the
    assertion of [block_alloc] excludes: with the assertions compiled in
    the call aborts and no vector is returned.  With the assertions
    compiled out the block comes back with the inline count 0xFF, the
    sentinel of a large block, and [block_scan_fsize] then reads the
    length field as the scan count: 254, one less than the 255 boxed
    fields the block has. *)
Theorem vector_alloc_254_breaks_scan_count w (def : box_t) :
  INTPTR_SIZE = 4 \/ INTPTR_SIZE = 8 ->
  (assertions = true -> vector_alloc 254 def w = Abort)
  /\ (assertions = false ->
     exists p w' fs,
       vector_alloc 254 def w = Ret p w' /\
       block_at w' p (Header 0 TAG_VECTOR_SMALL SCAN_FSIZE_MAX false) fs /\
       length fs = 255%nat /\
       block_scan_fsize p w' = Ret 254 w').
Proof.
  intros Harch. split; intros Ha.
  - unfold vector_alloc.
    change (254 =? 0) with false. change (254 <? SCAN_FSIZE_MAX) with true. cbv iota.
    rewrite (uintx_small (1 + 254)) by (trivial; lia).
    unfold block_alloc. rewrite !bind_eq.
    rewrite (assert_internal_fails _ w Ha); reflexivity.
  - rewrite (vector_alloc_small_on w 254 def Harch)
      by (unfold SCAN_FSIZE_MAX; first [lia | left; exact Ha]).
    eexists _, _, _. split; [reflexivity |].
    split; [apply heap_poke |]. split.
    + unfold initial_elements. cbn [length]. rewrite length_replicate. reflexivity.
    + erewrite block_scan_fsize_large; [| apply heap_poke | reflexivity].
      rewrite unbox_box_enum; [reflexivity |].
      assert (Hpow : 2 ^ 30 <= 2 ^ (word_bits - 2)).
      { apply Z.pow_le_mono_r; unfold word_bits; destruct Harch; lia. }
      lia.
Qed.

(** * Further properties of [runtime.h] *)

(** ** Sequences of dups and drops *)

(** X1.  Any sequence of [dup_block] and [drop_block] calls on one block,
    in any order, acts on the stored count as on a plain counter: as long
    as no drop finds the count at 0 and no dup takes it to 0x80000000,
    the calls return, call nothing, change nothing but the count, and
    the final count is the first one plus the number of dups minus the
    number of drops. *)
Theorem dup_drop_sequences (ops : list rc_op) :
  forall w b h fs rc',
    block_at w b h fs -> (0 <= refcount h < 2 ^ 31) ->
    count_after (refcount h) ops = Some rc' ->
    run_ops b ops w = Ret tt (poke b (Block (Some (set_refcount rc' h)) fs) w)
    /\ rc' = refcount h + net_dups ops.
Proof.
  induction ops as [| o rest IH]; intros w b h fs rc' H Hrc Hcount.
  - cbn [count_after] in Hcount. injection Hcount as <-.
    cbn [run_ops net_dups]. unfold ret.
    rewrite set_refcount_same, (poke_same _ _ _ _ H). split; [reflexivity | lia].
  - destruct o; cbn [count_after] in Hcount; cbn [run_ops run_op net_dups].
    + destruct (Z.ltb_spec (refcount h + 1) (2 ^ 31)) as [Hlt | Hge]; [| discriminate].
      rewrite (bind_Ret _ _ _ tt (poke b (Block (Some (set_refcount (refcount h + 1) h)) fs) w)).
      2:{ rewrite (bind_Ret _ _ _ _ _ (dup_block_plain _ _ _ _ H Hrc)). reflexivity. }
      destruct (IH (poke b (Block (Some (set_refcount (refcount h + 1) h)) fs) w) b
                   (set_refcount (refcount h + 1) h) fs rc') as [Hrun Hnet].
      * apply block_at_poke. reflexivity.
      * cbn [refcount set_refcount]. lia.
      * exact Hcount.
      * rewrite Hrun, poke_poke, set_refcount_twice.
        cbn [refcount set_refcount] in Hnet. split; [reflexivity | lia].
    + destruct (Z.ltb_spec 0 (refcount h)) as [Hpos | Hzero]; [| discriminate].
      rewrite (bind_Ret _ _ _ _ _ (drop_block_plain _ _ _ _ H ltac:(lia))).
      destruct (IH (poke b (Block (Some (set_refcount (refcount h - 1) h)) fs) w) b
                   (set_refcount (refcount h - 1) h) fs rc') as [Hrun Hnet].
      * apply block_at_poke. reflexivity.
      * cbn [refcount set_refcount]. lia.
      * exact Hcount.
      * rewrite Hrun, poke_poke, set_refcount_twice.
        cbn [refcount set_refcount] in Hnet. split; [reflexivity | lia].
Qed.

(** ** Release followed by reuse or by [block_no_reuse] *)

Lemma block_release0_unique w b h fs :
  block_at w b h fs -> refcount h = 0 ->
  block_release0 b w = Ret b (poke b (Block (Some header_zero) fs) w).
Proof.
  intros H Hrc. unfold block_release0.
  rewrite (bind_Ret _ _ _ _ _ (block_is_unique_at _ _ _ _ H)).
  apply Z.eqb_eq in Hrc. rewrite Hrc. apply (orphan_block_at _ _ _ _ H).
Qed.

Lemma block_release0_shared w b h fs :
  block_at w b h fs -> refcount h <> 0 ->
  exists w1, drop_block b w = Ret tt w1 /\
             block_release0 b w = Ret orphan_null w1.
Proof.
  intros H Hrc. unfold block_release0.
  rewrite (bind_Ret _ _ _ _ _ (block_is_unique_at _ _ _ _ H)).
  apply Z.eqb_neq in Hrc. rewrite Hrc.
  destruct (drop_block_calls _ _ _ _ H) as (w1 & E & _).
  exists w1. split; [exact E |]. rewrite (bind_Ret _ _ _ _ _ E). reflexivity.
Qed.

Lemma block_alloc_reuse_orphan w o h fs size s t :
  o <> orphan_null -> block_at w o h fs -> refcount h = 0 ->
  (0 <= s < SCAN_FSIZE_MAX) -> (0 <= t < 65536) ->
  block_alloc_reuse o size s t w = Ret o (poke o (Block (Some (HEADER s t)) fs) w).
Proof.
  intros Ho H Hrc Hs Ht. unfold block_alloc_reuse.
  apply Z.eqb_neq in Ho. rewrite Ho. cbn [negb].
  rewrite (bind_Ret _ _ _ o w).
  2:{ rewrite (bind_Ret _ _ _ tt w); [reflexivity |].
      apply assert_internal_holds.
      rewrite (block_is_unique_at _ _ _ _ H), Hrc. reflexivity. }
  rewrite (bind_Ret _ _ _ _ _ (block_init_on w o _ size s t H ltac:(right; lia))).
  cbn [fields]. rewrite u16_small, u8_small by (unfold SCAN_FSIZE_MAX in *; lia).
  reflexivity.
Qed.

Lemma block_alloc_reuse_null w size s t :
  (0 <= s < SCAN_FSIZE_MAX) -> (0 <= t < 65536) ->
  block_alloc_reuse orphan_null size s t w = block_alloc size s t w.
Proof.
  intros Hs Ht. unfold block_alloc_reuse, block_alloc.
  rewrite Z.eqb_refl. cbn [negb].
  rewrite (bind_Ret _ _ _ tt w); [reflexivity |].
  apply assert_internal_holds. unfold ret. f_equal. apply Z.ltb_lt. lia.
Qed.

(** X2.  Releasing a block with [block_release0] and handing the orphan
    to [block_alloc_reuse]: a unique block is turned into the new block in
    place (same address, same fields, the header of a fresh block; no
    [malloc], no free, no other call); a shared block only loses one
    count, and the new block is the one [block_alloc] makes after that
    drop. *)
Theorem release0_then_reuse w b h fs (size s t : Z) :
  block_at w b h fs ->
  (0 <= s < SCAN_FSIZE_MAX) -> (TAG_INVALID <= t <= TAG_LAST) ->
  (refcount h = 0 -> b <> orphan_null ->
     (o ← block_release0 b; block_alloc_reuse o size s t) w =
     Ret b (poke b (Block (Some (HEADER s t)) fs) w))
  /\ (refcount h <> 0 ->
     exists w1, drop_block b w = Ret tt w1 /\
                (o ← block_release0 b; block_alloc_reuse o size s t) w =
                block_alloc size s t w1).
Proof.
  intros H Hs Ht.
  assert (Ht' : 0 <= t < 65536).
  { pose proof TAG_LAST_fits. unfold TAG_INVALID in Ht. lia. }
  split.
  - intros Hrc Hb.
    rewrite (bind_Ret _ _ _ _ _ (block_release0_unique _ _ _ _ H Hrc)).
    rewrite (block_alloc_reuse_orphan _ b header_zero fs size s t Hb)
      by (first [apply block_at_poke; reflexivity | reflexivity | assumption]).
    rewrite poke_poke. reflexivity.
  - intros Hrc.
    destruct (block_release0_shared _ _ _ _ H Hrc) as (w1 & Hdrop & Hrel).
    exists w1. split; [exact Hdrop |].
    rewrite (bind_Ret _ _ _ _ _ Hrel).
    apply block_alloc_reuse_null; assumption.
Qed.

(** X3.  Releasing a block with [block_release0] and discarding the
    orphan with [block_no_reuse] is a full drop of a block without scan
    work: a unique block is returned to the allocator with one [free],
    and a shared block only loses one count, with nothing freed.  The
    empty orphan is never passed to [free]. *)
Theorem release0_then_no_reuse w b h fs :
  block_at w b h fs ->
  (refcount h = 0 -> b <> orphan_null ->
     (o ← block_release0 b; block_no_reuse o) w =
     Ret tt (World (delete b (heap w)) (call_free b :: calls w)))
  /\ (refcount h <> 0 ->
     (o ← block_release0 b; block_no_reuse o) w = drop_block b w)
  /\ block_no_reuse orphan_null w = Ret tt w.
Proof.
  intros H. split; [| split].
  - intros Hrc Hb.
    rewrite (bind_Ret _ _ _ _ _ (block_release0_unique _ _ _ _ H Hrc)).
    unfold block_no_reuse. apply Z.eqb_neq in Hb. rewrite Hb. cbn [negb].
    unfold runtime_free. rewrite heap_poke.
    unfold poke, with_heap. cbn [heap calls]. rewrite delete_insert_eq. reflexivity.
  - intros Hrc.
    destruct (block_release0_shared _ _ _ _ H Hrc) as (w1 & Hdrop & Hrel).
    rewrite (bind_Ret _ _ _ _ _ Hrel), Hdrop.
    unfold block_no_reuse. rewrite Z.eqb_refl. reflexivity.
  - unfold block_no_reuse. rewrite Z.eqb_refl. reflexivity.
Qed.

(** ** References *)

Lemma ref_alloc_on w (v : box_t) :
  0 < INTPTR_SIZE ->
  let p := malloc_addr (heap w) in
  ref_alloc v w =
  Ret p (poke p (Block (Some (HEADER 1 TAG_REF)) [Some v])
                (with_call (call_malloc sizeof_ref_s p) w)).
Proof.
  intros HW p. unfold ref_alloc.
  rewrite (bind_Ret _ _ _ _ _ (block_alloc_fresh w sizeof_ref_s 1 TAG_REF
                                 ltac:(unfold sizeof_ref_s, sizeof_box_t; lia)
                                 ltac:(unfold SCAN_FSIZE_MAX; lia)
                                 ltac:(split; [discriminate | reflexivity]))).
  fold p.
  assert (Ecount : Z.to_nat ((sizeof_ref_s - sizeof_header_t) / sizeof_box_t) = 1%nat).
  { unfold sizeof_ref_s, sizeof_header_t, sizeof_box_t.
    replace (8 + INTPTR_SIZE - 8) with INTPTR_SIZE by lia.
    rewrite Z.div_same by lia. reflexivity. }
  rewrite Ecount. cbn [replicate].
  change (World _ _)
    with (poke p (Block (Some (HEADER 1 TAG_REF)) [None])
            (with_call (call_malloc sizeof_ref_s p) w)).
  set (w0 := with_call (call_malloc sizeof_ref_s p) w).
  rewrite (bind_Ret _ _ _ _ _
             (store_field_on (poke p (Block (Some (HEADER 1 TAG_REF)) [None]) w0)
                p (Some (HEADER 1 TAG_REF)) [None] ref_value v (heap_poke _ _ _)
                ltac:(unfold ref_value; cbn [length]; lia))).
  rewrite poke_poke. reflexivity.
Qed.

Lemma ref_swap_on w r ho old fs (v : box_t) :
  heap w !! r = Some (Block ho (Some old :: fs)) ->
  ref_swap r v w = Ret old (poke r (Block ho (Some v :: fs)) w).
Proof.
  intros H. unfold ref_swap.
  rewrite (bind_Ret _ _ _ _ _ (load_field_on _ _ _ _ ref_value old H eq_refl)).
  rewrite (bind_Ret _ _ _ _ _
             (store_field_on _ _ _ _ ref_value v H
                ltac:(unfold ref_value; cbn [length]; lia))).
  reflexivity.
Qed.

(** X4.  [ref_alloc] makes one [malloc] of [sizeof(struct ref_s)] and
    returns a block that was not live before: unique, tagged [TAG_REF],
    with scan count 1, holding the value it was given; the first
    [ref_swap] on it returns that value. *)
Theorem ref_alloc_then_swap w (v v' : box_t) :
  0 < INTPTR_SIZE ->
  exists p,
    heap w !! p = None /\
    ref_alloc v w =
    Ret p (poke p (Block (Some (Header 0 TAG_REF 1 false)) [Some v])
                  (with_call (call_malloc sizeof_ref_s p) w)) /\
    (r ← ref_alloc v; ref_swap r v') w =
    Ret v (poke p (Block (Some (Header 0 TAG_REF 1 false)) [Some v'])
                  (with_call (call_malloc sizeof_ref_s p) w)).
Proof.
  intros HW. exists (malloc_addr (heap w)).
  split; [apply malloc_addr_fresh |].
  pose proof (ref_alloc_on w v HW) as Halloc. cbv zeta in Halloc.
  split; [exact Halloc |].
  rewrite (bind_Ret _ _ _ _ _ Halloc).
  rewrite (ref_swap_on _ _ _ v [] v' (heap_poke _ _ _)).
  rewrite poke_poke. reflexivity.
Qed.

(** X5.  [ref_swap] returns the old content, stores the new one and
    touches nothing else: no reference count changes and nothing is
    called.  Swapping back what it returned restores the heap and gives
    back the value that was swapped in. *)
Theorem ref_swap_involutive w r ho old fs (v : box_t) :
  heap w !! r = Some (Block ho (Some old :: fs)) ->
  ref_swap r v w = Ret old (poke r (Block ho (Some v :: fs)) w)
  /\ (x ← ref_swap r v; ref_swap r x) w = Ret v w.
Proof.
  intros H. split; [apply (ref_swap_on _ _ _ _ _ _ H) |].
  rewrite (bind_Ret _ _ _ _ _ (ref_swap_on _ _ _ _ _ v H)).
  rewrite (ref_swap_on _ r ho v fs old (heap_poke _ _ _)).
  rewrite poke_poke, (poke_id _ _ _ H). reflexivity.
Qed.

(** X6.  [ref_set] drops the old content once, then stores the new value
    without touching its count, and returns [Unit]; when the cell is
    still as it was after that drop, a following [ref_get] reads the new
    value and duplicates it. *)
Theorem ref_set_then_get w w1 r ho old fs (v : box_t) :
  heap w !! r = Some (Block ho (Some old :: fs)) ->
  drop_boxed old w = Ret tt w1 ->
  heap w1 !! r = heap w !! r ->
  ref_set r v w = Ret Unit (poke r (Block ho (Some v :: fs)) w1)
  /\ (ref_set r v ;; ref_get r) w =
     dup_boxed v (poke r (Block ho (Some v :: fs)) w1).
Proof.
  intros H Hdrop Hsame. rewrite H in Hsame.
  assert (Hset : ref_set r v w = Ret Unit (poke r (Block ho (Some v :: fs)) w1)).
  { unfold ref_set.
    rewrite (bind_Ret _ _ _ _ _ (load_field_on _ _ _ _ ref_value old H eq_refl)).
    rewrite (bind_Ret _ _ _ _ _ Hdrop).
    rewrite (bind_Ret _ _ _ _ _
               (store_field_on _ _ _ _ ref_value v Hsame
                  ltac:(unfold ref_value; cbn [length]; lia))).
    reflexivity. }
  split; [exact Hset |].
  rewrite (bind_Ret _ _ _ _ _ Hset). unfold ref_get.
  rewrite (bind_Ret _ _ _ _ _
             (load_field_on _ r ho (Some v :: fs) ref_value v (heap_poke _ _ _) eq_refl)).
  reflexivity.
Qed.

(** ** Value tags *)

Lemma value_tag_low_bits (t : Z) : Z.land (value_tag t) 3 = 3.
Proof.
  unfold value_tag. apply Z.bits_inj'. intros i Hi.
  rewrite Z.land_spec, Z.lor_spec.
  destruct (Z.testbit 3 i); [rewrite orb_true_r | rewrite andb_false_r]; reflexivity.
Qed.

Lemma unbox_enum_value_tag (t : Z) :
  0 <= t < 2 ^ (word_bits - 2) -> unbox_enum (value_tag t) = t.
Proof.
  intros Ht.
  assert (Hw : 0 <= word_bits - 2).
  { destruct (Z.lt_ge_cases (word_bits - 2) 0) as [Hneg | Hge]; [| exact Hge].
    rewrite (Z.pow_neg_r 2 _ Hneg) in Ht. lia. }
  assert (Hpow : 2 ^ word_bits = 4 * 2 ^ (word_bits - 2)).
  { replace word_bits with (2 + (word_bits - 2)) at 1 by lia.
    rewrite Z.pow_add_r by lia. reflexivity. }
  unfold unbox_enum, value_tag.
  rewrite (uintx_fits t) by lia.
  rewrite Z.shiftl_mul_pow2 by lia. change (2 ^ 2) with 4.
  rewrite (uintx_fits (t * 4)) by lia.
  apply Z.bits_inj'. intros i Hi.
  rewrite Z.shiftr_spec, Z.lor_spec by exact Hi.
  rewrite (Z.bits_above_log2 3 (i + 2)) by (cbn; lia).
  rewrite orb_false_r.
  replace (t * 4) with (t * 2 ^ 2) by reflexivity.
  rewrite Z.mul_pow2_bits by lia. f_equal. lia.
Qed.

(** X7.  [value_tag] always sets the two low bits of the word, so that a
    value tag is never a pointer aligned to four bytes, and it maps
    distinct tags below 2^(word bits - 2) to distinct words. *)
Theorem value_tag_direct_and_injective :
  (forall t, Z.land (value_tag t) 3 = 3 /\ is_ptr (value_tag t) = false)
  /\ (forall t1 t2,
       0 <= t1 < 2 ^ (word_bits - 2) -> 0 <= t2 < 2 ^ (word_bits - 2) ->
       value_tag t1 = value_tag t2 -> t1 = t2).
Proof.
  split.
  - intros t. split; [apply value_tag_low_bits |].
    unfold is_ptr. rewrite value_tag_low_bits. reflexivity.
  - intros t1 t2 H1 H2 E.
    rewrite <- (unbox_enum_value_tag t1 H1), <- (unbox_enum_value_tag t2 H2), E.
    reflexivity.
Qed.

(** ** Markers *)

Lemma set_marker_unique_same ctx : set_marker_unique (ctx_marker_unique ctx) ctx = ctx.
Proof. destruct ctx. reflexivity. Qed.

Lemma markers_run (k : nat) :
  forall ctx,
    ctx_marker_unique ctx + Z.of_nat k < 2 ^ 31 ->
    markers k ctx =
    Some (seqZ (ctx_marker_unique ctx) (Z.of_nat k),
          set_marker_unique (ctx_marker_unique ctx + Z.of_nat k) ctx).
Proof.
  induction k as [| k IH]; intros ctx Hk.
  - cbn [markers]. rewrite Z.add_0_r, set_marker_unique_same. reflexivity.
  - cbn [markers]. unfold marker_unique.
    assert (E : (ctx_marker_unique ctx <? 2 ^ 31 - 1) = true) by (apply Z.ltb_lt; lia).
    rewrite E.
    rewrite (IH (set_marker_unique (ctx_marker_unique ctx + 1) ctx))
      by (cbn [ctx_marker_unique set_marker_unique]; lia).
    cbn [ctx_marker_unique set_marker_unique].
    rewrite (seqZ_cons (ctx_marker_unique ctx) (Z.of_nat (S k))) by lia.
    replace (Z.pred (Z.of_nat (S k))) with (Z.of_nat k) by lia.
    replace (ctx_marker_unique ctx + 1 + Z.of_nat k)
      with (ctx_marker_unique ctx + Z.of_nat (S k)) by lia.
    reflexivity.
Qed.

(** X8.  As long as the counter stays below [INT32_MAX], [k] calls of
    [marker_unique] in a row return the [k] consecutive values that start
    at the counter, which are pairwise distinct, and change no other
    field of the context; at [INT32_MAX] the increment overflows and the
    call is undefined. *)
Theorem marker_unique_fresh (k : nat) (ctx : context_t) :
  (ctx_marker_unique ctx + Z.of_nat k < 2 ^ 31 ->
     markers k ctx =
     Some (seqZ (ctx_marker_unique ctx) (Z.of_nat k),
           set_marker_unique (ctx_marker_unique ctx + Z.of_nat k) ctx)
     /\ NoDup (seqZ (ctx_marker_unique ctx) (Z.of_nat k)))
  /\ (ctx_marker_unique ctx = 2 ^ 31 - 1 -> marker_unique ctx = None).
Proof.
  split.
  - intros Hk. split; [apply (markers_run k ctx Hk) | apply NoDup_seqZ].
  - intros E. unfold marker_unique. rewrite E. reflexivity.
Qed.

(** ** Vectors made by [vector_alloc] *)

Lemma c_assert_holds (c : M bool) w : c w = Ret true w -> c_assert c w = Ret tt w.
Proof.
  intros H. unfold c_assert. destruct NDEBUG; [reflexivity |].
  rewrite (bind_Ret _ _ _ _ _ H). reflexivity.
Qed.

Lemma c_assert_fails (c : M bool) w :
  c w = Ret false w -> c_assert c w = if NDEBUG then Ret tt w else Abort.
Proof.
  intros H. unfold c_assert. destruct NDEBUG; [reflexivity |].
  rewrite (bind_Ret _ _ _ _ _ H). reflexivity.
Qed.

Lemma block_as_holds w b h fs tg :
  block_at w b h fs -> tag h = tg -> block_as b tg w = Ret b w.
Proof.
  intros H Ht. unfold block_as. rewrite (bind_Ret _ _ _ tt w); [reflexivity |].
  apply assert_internal_holds.
  rewrite (bind_Ret _ _ _ _ _ (block_tag_at _ _ _ _ H)), Ht.
  unfold ret. rewrite Z.eqb_refl. reflexivity.
Qed.


(** What [vector_alloc] returns for a length that is not 0: a block that
    was not live, in one of the two layouts, with the boxed length and
    the elements; everything else is as before, apart from the one call
    of [malloc]. *)
Lemma vector_alloc_shape w (n : Z) (def : box_t) :
  INTPTR_SIZE = 4 \/ INTPTR_SIZE = 8 ->
  0 < n -> assertions = false \/ n <> 254 ->
  8 + (n + 2) * INTPTR_SIZE + 1 < 2 ^ word_bits ->
  exists h pre sz,
    vector_layout h pre n /\
    vector_alloc n def w =
    Ret (malloc_addr (heap w))
        (poke (malloc_addr (heap w))
              (Block (Some h) (pre ++ Some (box_enum n) :: initial_elements n def))
              (with_call (call_malloc sz (malloc_addr (heap w))) w)).
Proof.
  intros Harch Hn Hok Hfit.
  destruct (Z.lt_ge_cases n SCAN_FSIZE_MAX) as [Hsmall | Hlarge].
  - assert (Hchk : assertions = false \/ n < 254).
    { destruct Hok as [Hoff | Hne]; [left; exact Hoff |].
      right. unfold SCAN_FSIZE_MAX in Hsmall. lia. }
    eexists _, [], _. split.
    2:{ apply (vector_alloc_small_on w n def Harch ltac:(lia) Hchk). }
    left. split; [reflexivity |]. split; [reflexivity |].
    split; [reflexivity | exact Hsmall].
  - eexists _, [_], _. split.
    2:{ apply (vector_alloc_large_on w n def Harch Hlarge Hfit). }
    right. split; [reflexivity |]. split; [reflexivity |].
    split; [reflexivity | exact Hlarge].
Qed.

Lemma fits_representable (n : Z) :
  INTPTR_SIZE = 4 \/ INTPTR_SIZE = 8 -> 0 < n ->
  8 + (n + 2) * INTPTR_SIZE + 1 < 2 ^ word_bits ->
  0 <= n < 2 ^ (word_bits - 2) /\ 0 <= 1 + n < 2 ^ (word_bits - 2).
Proof.
  intros Harch Hn Hfit.
  assert (Hw : 2 ^ word_bits = 4 * 2 ^ (word_bits - 2)).
  { replace word_bits with (2 + (word_bits - 2)) at 1 by lia.
    rewrite Z.pow_add_r; [reflexivity | lia |].
    unfold word_bits. destruct Harch; lia. }
  destruct Harch; nia.
Qed.

Lemma vector_len_layout w p h pre l elems n :
  block_at w p h (pre ++ Some l :: elems) -> vector_layout h pre n ->
  vector_len p w = Ret (unbox_enum l) w.
Proof.
  intros H [(Ht & -> & _) | (Ht & -> & _)].
  - apply (vector_len_small _ _ _ _ _ H Ht).
  - apply (vector_len_large _ _ _ _ _ _ H Ht).
Qed.

Lemma vector_buf_layout w p h pre l elems n :
  block_at w p h (pre ++ Some l :: elems) -> vector_layout h pre n ->
  vector_buf p false w = Ret (None, S (length pre)) w.
Proof.
  intros H [(Ht & -> & _) | (Ht & -> & _)]; unfold vector_buf;
    rewrite (bind_Ret _ _ _ None w eq_refl);
    rewrite (bind_Ret _ _ _ _ _ (block_tag_at _ _ _ _ H)), Ht.
  - rewrite Z.eqb_refl.
    rewrite (bind_Ret _ _ _ _ _ (block_as_holds _ _ _ _ _ H Ht)). reflexivity.
  - change (TAG_VECTOR =? TAG_VECTOR_SMALL) with false. cbv iota.
    rewrite (bind_Ret _ _ _ _ _ (block_as_holds _ _ _ _ _ H Ht)). reflexivity.
Qed.

Lemma lookup_after_length (pre : list (option box_t)) l elems (k : nat) :
  (pre ++ l :: elems) !! (S (length pre) + k)%nat = elems !! k.
Proof.
  rewrite lookup_app_r by lia.
  replace (S (length pre) + k - length pre)%nat with (S k) by lia. reflexivity.
Qed.

Lemma vector_at_in_bounds w p h pre l elems n (i : Z) (x : box_t) :
  block_at w p h (pre ++ Some l :: elems) -> vector_layout h pre n ->
  i < unbox_enum l -> elems !! Z.to_nat i = Some (Some x) ->
  vector_at p i w = dup_boxed x w.
Proof.
  intros H Hlay Hi Hx. unfold vector_at.
  rewrite (bind_Ret _ _ _ tt w).
  2:{ apply c_assert_holds.
      rewrite (bind_Ret _ _ _ _ _ (vector_len_layout _ _ _ _ _ _ _ H Hlay)).
      unfold ret. f_equal. apply Z.ltb_lt. exact Hi. }
  rewrite (bind_Ret _ _ _ _ _ (vector_buf_layout _ _ _ _ _ _ _ H Hlay)). cbn [snd].
  rewrite (bind_Ret _ _ _ x w); [reflexivity |].
  apply (load_field_on _ _ _ _ _ _ H). rewrite lookup_after_length. exact Hx.
Qed.

Lemma vector_at_out_of_bounds w p h pre l elems n (i : Z) :
  block_at w p h (pre ++ Some l :: elems) -> vector_layout h pre n ->
  unbox_enum l <= i -> (length elems <= Z.to_nat i)%nat ->
  vector_at p i w = if NDEBUG then Undef else Abort.
Proof.
  intros H Hlay Hi Hlen. unfold vector_at. rewrite bind_eq.
  rewrite (c_assert_fails _ w).
  2:{ rewrite (bind_Ret _ _ _ _ _ (vector_len_layout _ _ _ _ _ _ _ H Hlay)).
      unfold ret. f_equal. apply Z.ltb_ge. exact Hi. }
  destruct NDEBUG; [| reflexivity].
  rewrite (bind_Ret _ _ _ _ _ (vector_buf_layout _ _ _ _ _ _ _ H Hlay)). cbn [snd].
  rewrite bind_eq. unfold load_field. unfold block_at in H. rewrite H. cbn [fields].
  rewrite lookup_after_length.
  rewrite (proj2 (lookup_ge_None elems (Z.to_nat i)) Hlen). reflexivity.
Qed.

(** X9.  A [vector_alloc] of a length that is not 0 makes exactly one
    call, to [malloc], returns a block that was not live before, and
    leaves every block that was live as it was: although the vector holds
    [n] copies of the default element, the reference count of the block
    that element may point to is not raised. *)
Theorem vector_alloc_frame w (n : Z) (def : box_t) :
  INTPTR_SIZE = 4 \/ INTPTR_SIZE = 8 ->
  0 < n -> assertions = false \/ n <> 254 ->
  8 + (n + 2) * INTPTR_SIZE + 1 < 2 ^ word_bits ->
  exists p w' sz,
    vector_alloc n def w = Ret p w' /\
    heap w !! p = None /\
    (forall q, q <> p -> heap w' !! q = heap w !! q) /\
    calls w' = call_malloc sz p :: calls w.
Proof.
  intros Harch Hn Hok Hfit.
  destruct (vector_alloc_shape w n def Harch Hn Hok Hfit) as (h & pre & sz & _ & E).
  eexists _, _, sz. split; [exact E |].
  split; [apply malloc_addr_fresh |]. split; [| reflexivity].
  intros q Hq. unfold poke, with_heap, with_call. cbn [heap].
  apply lookup_insert_ne. congruence.
Qed.

(** X10.  After [vector_alloc] with a default element other than
    [box_null], [vector_at] at every index below the length is a
    [dup_boxed] of the default element.  With [box_null] the filling loop
    is skipped: the elements were never written, and [vector_at] reads a
    word that holds no value. *)
Theorem vector_alloc_elements w (n : Z) (def : box_t) :
  INTPTR_SIZE = 4 \/ INTPTR_SIZE = 8 ->
  0 < n -> assertions = false \/ n <> 254 ->
  8 + (n + 2) * INTPTR_SIZE + 1 < 2 ^ word_bits ->
  exists p w',
    vector_alloc n def w = Ret p w' /\
    (def <> box_null ->
       forall i, 0 <= i < n -> vector_at p i w' = dup_boxed def w') /\
    (def = box_null ->
       forall i, 0 <= i < n -> vector_at p i w' = Undef).
Proof.
  intros Harch Hn Hok Hfit.
  destruct (vector_alloc_shape w n def Harch Hn Hok Hfit) as (h & pre & sz & Hlay & E).
  destruct (fits_representable n Harch Hn Hfit) as [Hrep _].
  eexists _, _. split; [exact E |].
  set (p := malloc_addr (heap w)) in *. set (w' := poke p _ _) in *.
  assert (H : block_at w' p h (pre ++ Some (box_enum n) :: initial_elements n def))
    by apply heap_poke.
  split.
  - intros Hdef i Hi.
    apply (vector_at_in_bounds _ _ _ _ _ _ _ _ _ H Hlay).
    + rewrite (unbox_box_enum n Hrep). lia.
    + unfold initial_elements. apply Z.eqb_neq in Hdef. rewrite Hdef.
      apply lookup_replicate_2. lia.
  - intros Hdef i Hi. unfold vector_at.
    rewrite (bind_Ret _ _ _ tt w').
    2:{ apply c_assert_holds.
        rewrite (bind_Ret _ _ _ _ _ (vector_len_layout _ _ _ _ _ _ _ H Hlay)).
        unfold ret. f_equal. apply Z.ltb_lt. rewrite (unbox_box_enum n Hrep). lia. }
    rewrite (bind_Ret _ _ _ _ _ (vector_buf_layout _ _ _ _ _ _ _ H Hlay)). cbn [snd].
    rewrite bind_eq. unfold load_field. unfold block_at in H. rewrite H. cbn [fields].
    rewrite lookup_after_length. unfold initial_elements.
    apply Z.eqb_eq in Hdef. rewrite Hdef.
    rewrite lookup_replicate_2 by lia. reflexivity.
Qed.

(** X11.  On a vector made by [vector_alloc], [vector_at] at an index
    that is not below the length never returns a value: the [assert]
    aborts, and where it is compiled out the read is outside the block. *)
Theorem vector_at_past_the_end w (n : Z) (def : box_t) :
  INTPTR_SIZE = 4 \/ INTPTR_SIZE = 8 ->
  0 < n -> assertions = false \/ n <> 254 ->
  8 + (n + 2) * INTPTR_SIZE + 1 < 2 ^ word_bits ->
  exists p w',
    vector_alloc n def w = Ret p w' /\
    forall i, n <= i -> vector_at p i w' = if NDEBUG then Undef else Abort.
Proof.
  intros Harch Hn Hok Hfit.
  destruct (vector_alloc_shape w n def Harch Hn Hok Hfit) as (h & pre & sz & Hlay & E).
  destruct (fits_representable n Harch Hn Hfit) as [Hrep _].
  eexists _, _. split; [exact E |].
  intros i Hi.
  apply (vector_at_out_of_bounds _ _ _ _ _ _ n _ (heap_poke _ _ _) Hlay).
  - rewrite (unbox_box_enum n Hrep). exact Hi.
  - unfold initial_elements. rewrite length_replicate. lia.
Qed.

(** X12.  For every length other than 0 and 254 whose allocation size
    fits [size_t], the accessors read back what [vector_alloc] was given:
    [vector_len] is the length, [block_scan_fsize] is the length plus one
    (the [length] field and the elements), the block is unique, and its
    tag is [TAG_VECTOR_SMALL] below 255 and [TAG_VECTOR] from 255 on. *)
Theorem vector_alloc_accessors w (n : Z) (def : box_t) :
  INTPTR_SIZE = 4 \/ INTPTR_SIZE = 8 ->
  0 < n -> n <> 254 ->
  8 + (n + 2) * INTPTR_SIZE + 1 < 2 ^ word_bits ->
  exists p w',
    vector_alloc n def w = Ret p w' /\
    vector_len p w' = Ret n w' /\
    block_scan_fsize p w' = Ret (1 + n) w' /\
    block_is_unique p w' = Ret true w' /\
    block_tag p w' =
    Ret (if n <? SCAN_FSIZE_MAX then TAG_VECTOR_SMALL else TAG_VECTOR) w'.
Proof.
  intros Harch Hn Hne Hfit.
  destruct (fits_representable n Harch Hn Hfit) as [Hrep Hrep1].
  destruct (Z.lt_ge_cases n SCAN_FSIZE_MAX) as [Hsmall | Hlarge].
  - pose proof (vector_alloc_small_on w n def Harch ltac:(lia)
                  ltac:(right; unfold SCAN_FSIZE_MAX in Hsmall; lia)) as E.
    cbv zeta in E. eexists _, _. split; [exact E |].
    set (p := malloc_addr (heap w)) in *. set (w' := poke p _ _) in *.
    assert (H : block_at w' p (Header 0 TAG_VECTOR_SMALL (1 + n) false)
                  (Some (box_enum n) :: initial_elements n def)) by apply heap_poke.
    split; [| split; [| split]].
    + rewrite (vector_len_small _ _ _ _ _ H eq_refl), (unbox_box_enum n Hrep). reflexivity.
    + apply (block_scan_fsize_inline _ _ _ _ H). cbn [scan_fsize].
      unfold SCAN_FSIZE_MAX in *. lia.
    + apply (block_is_unique_at _ _ _ _ H).
    + rewrite (block_tag_at _ _ _ _ H). cbn [tag].
      apply Z.ltb_lt in Hsmall. rewrite Hsmall. reflexivity.
  - pose proof (vector_alloc_large_on w n def Harch Hlarge Hfit) as E.
    cbv zeta in E. eexists _, _. split; [exact E |].
    set (p := malloc_addr (heap w)) in *. set (w' := poke p _ _) in *.
    assert (H : block_at w' p (Header 0 TAG_VECTOR SCAN_FSIZE_MAX false)
                  (Some (box_enum (1 + n)) :: Some (box_enum n)
                     :: initial_elements n def)) by apply heap_poke.
    split; [| split; [| split]].
    + rewrite (vector_len_large _ _ _ _ _ _ H eq_refl), (unbox_box_enum n Hrep). reflexivity.
    + rewrite (block_scan_fsize_large _ _ _ _ _ H eq_refl), (unbox_box_enum _ Hrep1).
      reflexivity.
    + apply (block_is_unique_at _ _ _ _ H).
    + rewrite (block_tag_at _ _ _ _ H). cbn [tag].
      apply Z.ltb_ge in Hlarge. rewrite Hlarge. reflexivity.
Qed.

(** ** Blocks that are not vectors *)

Lemma block_as_fails w b h fs tg :
  assertions = true -> block_at w b h fs -> tag h <> tg -> block_as b tg w = Abort.
Proof.
  intros Ha H Ht. unfold block_as. rewrite bind_eq.
  rewrite (assert_internal_fails _ w Ha); [reflexivity |].
  rewrite (bind_Ret _ _ _ _ _ (block_tag_at _ _ _ _ H)).
  unfold ret. f_equal. apply Z.eqb_neq. exact Ht.
Qed.

(** X13.  The vector functions check the tag of the block only through
    [assert_internal].  On a block tagged [TAG_VECTOR_SMALL] or
    [TAG_VECTOR], [unbox_vector_t] gives back the pointer that [box_ptr]
    boxed and changes nothing.  On a block with any other tag,
    [unbox_vector_t], [vector_len] and [vector_buf] abort when the
    assertions are compiled in; when they are compiled out
    [unbox_vector_t] returns the pointer all the same. *)
Theorem vector_tag_checks w v h fs :
  block_at w v h fs ->
  (tag h = TAG_VECTOR_SMALL \/ tag h = TAG_VECTOR ->
     unbox_vector_t (box_ptr v) w = Ret v w)
  /\ (tag h <> TAG_VECTOR_SMALL -> tag h <> TAG_VECTOR ->
     (assertions = true ->
        unbox_vector_t (box_ptr v) w = Abort /\
        vector_len v w = Abort /\
        vector_buf v false w = Abort)
     /\ (assertions = false -> unbox_vector_t (box_ptr v) w = Ret v w)).
Proof.
  intros H. split; [apply (unbox_vector_t_box_ptr _ _ _ _ H) |].
  intros Hs Hl.
  assert (Es : (tag h =? TAG_VECTOR_SMALL) = false) by (apply Z.eqb_neq; exact Hs).
  assert (El : (tag h =? TAG_VECTOR) = false) by (apply Z.eqb_neq; exact Hl).
  split.
  - intros Ha. split; [| split].
    + unfold unbox_vector_t, box_ptr, unbox_ptr. rewrite bind_eq.
      rewrite (assert_internal_fails _ w Ha); [reflexivity |].
      rewrite (bind_Ret _ _ _ _ _ (block_tag_at _ _ _ _ H)), Es, El. reflexivity.
    + unfold vector_len.
      rewrite (bind_Ret _ _ _ _ _ (block_tag_at _ _ _ _ H)), Es.
      rewrite bind_eq, (block_as_fails _ _ _ _ _ Ha H Hl). reflexivity.
    + unfold vector_buf. rewrite (bind_Ret _ _ _ None w eq_refl).
      rewrite (bind_Ret _ _ _ _ _ (block_tag_at _ _ _ _ H)), Es.
      rewrite bind_eq, (block_as_fails _ _ _ _ _ Ha H Hl). reflexivity.
  - intros Ha. unfold unbox_vector_t, box_ptr, unbox_ptr.
    rewrite (bind_Ret _ _ _ tt w); [reflexivity |].
    apply assert_internal_off, Ha.
Qed.

(** ** Sizes *)

Lemma block_large_alloc_no_room w (size fsize tg : Z) :
  Z.to_nat ((uintx (size + 1) - sizeof_header_t) / sizeof_box_t) = 0%nat ->
  block_large_alloc size fsize tg w = Undef.
Proof.
  intros Hk. unfold block_large_alloc.
  destruct (Z.lt_ge_cases (uintx (size + 1)) sizeof_header_t) as [Hlt | Hge].
  { rewrite (bind_Ret _ _ _ _ _ (runtime_malloc_small _ w Hlt)).
    rewrite bind_eq. unfold block_large_init. rewrite bind_eq.
    rewrite (store_header_nowhere _ _ _ _ (malloc_addr_fresh (heap w))). reflexivity. }
  rewrite (bind_Ret _ _ _ _ _ (runtime_malloc_eq _ w Hge)). rewrite Hk. cbn [replicate].
  set (p := malloc_addr (heap w)). set (w1 := poke p _ _).
  rewrite bind_eq. unfold block_large_init.
  assert (Hst : store_header p (Header 0 (u16 tg) SCAN_FSIZE_MAX false) w1
                = Ret tt (poke p (Block (Some (Header 0 (u16 tg) SCAN_FSIZE_MAX false)) []) w1)).
  { unfold store_header. unfold w1 at 1. rewrite heap_poke. reflexivity. }
  rewrite (bind_Ret _ _ _ _ _ Hst).
  unfold store_field. rewrite heap_poke. cbn [fields length].
  destruct (decide (0 < 0)%nat) as [Hbad | _]; [lia | reflexivity].
Qed.

(** X14.  [block_large_alloc] asks [malloc] for [size + 1] bytes, one
    byte and not one field more than [size]: unless [size] already
    includes the field for the scan count, that is [size + 1] is at least
    [sizeof(block_large_t)], the store of the scan count by
    [block_large_init] lands outside the allocation. *)
Theorem block_large_alloc_needs_room w (size fsize tg : Z) :
  INTPTR_SIZE = 4 \/ INTPTR_SIZE = 8 ->
  0 <= size -> size + 1 < sizeof_header_t + sizeof_box_t ->
  block_large_alloc size fsize tg w = Undef.
Proof.
  intros Harch H0 Hsmall. apply block_large_alloc_no_room.
  unfold sizeof_header_t, sizeof_box_t in *.
  rewrite (uintx_small (size + 1)) by (trivial; destruct Harch; lia).
  assert (Hq : (size + 1 - 8) / INTPTR_SIZE < 1).
  { apply Z.div_lt_upper_bound; destruct Harch; lia. }
  lia.
Qed.

(** The filling loop runs off the end of a block that has fewer fields
    than the loop writes. *)
Lemma for_range_overrun (v : ptr) (off : nat) (def : box_t) (count : nat) :
  forall (start : nat) w ho fs,
    heap w !! v = Some (Block ho fs) ->
    (off + start <= length fs)%nat -> (length fs < off + start + count)%nat ->
    for_range start count (fun i => store_field v (off + i) def) w = Undef.
Proof.
  induction count as [| c IH]; intros start w ho fs H Hlo Hhi; [lia |].
  cbn [for_range]. rewrite bind_eq.
  destruct (decide (off + start < length fs)%nat) as [Hin | Hout].
  - rewrite (store_field_on _ _ _ _ (off + start) def H Hin).
    apply (IH (S start) _ ho (<[(off + start)%nat := Some def]> fs)).
    + apply heap_poke.
    + rewrite length_insert. lia.
    + rewrite length_insert. lia.
  - unfold store_field. rewrite H. cbn [fields].
    destruct (decide (off + start < length fs)%nat) as [Hin | _]; [lia | reflexivity].
Qed.

(** X15.  [vector_alloc] computes the allocation size in [size_t] without
    an overflow check.  For a length from 255 on whose wrapped size has
    room for fewer than the [length + 2] fields of a large vector, and a
    default element other than [box_null], the call writes outside the
    block that [malloc] returned. *)
Theorem vector_alloc_size_overflow w (n : Z) (def : box_t) :
  SCAN_FSIZE_MAX <= n -> def <> box_null ->
  (uintx (uintx (sizeof_vector_large_s + uintx ((n - 1) * sizeof_box_t)) + 1)
     - sizeof_header_t) / sizeof_box_t < n + 2 ->
  vector_alloc n def w = Undef.
Proof.
  intros Hn Hdef Hroom. unfold SCAN_FSIZE_MAX in Hn. unfold vector_alloc.
  assert (E0 : (n =? 0) = false) by (apply Z.eqb_neq; lia).
  assert (E1 : (n <? SCAN_FSIZE_MAX) = false) by (apply Z.ltb_ge; unfold SCAN_FSIZE_MAX; lia).
  apply Z.eqb_neq in Hdef. rewrite E0, E1, Hdef. cbn [negb].
  set (size := uintx (sizeof_vector_large_s + uintx ((n - 1) * sizeof_box_t))) in *.
  destruct (Z.to_nat ((uintx (size + 1) - sizeof_header_t) / sizeof_box_t))
    as [| k] eqn:Ek.
  { rewrite bind_eq, (block_large_alloc_no_room w size _ _ Ek). reflexivity. }
  destruct (Z.lt_ge_cases (uintx (size + 1)) sizeof_header_t) as [Hlt | Hge].
  { rewrite bind_eq. unfold block_large_alloc.
    rewrite (bind_Ret _ _ _ _ _ (runtime_malloc_small _ w Hlt)).
    rewrite bind_eq. unfold block_large_init. rewrite bind_eq.
    rewrite (store_header_nowhere _ _ _ _ (malloc_addr_fresh (heap w))). reflexivity. }
  rewrite (bind_Ret _ _ _ _ _ (block_large_alloc_on w size _ TAG_VECTOR k Hge Ek)).
  set (p := malloc_addr (heap w)). set (w1 := poke p _ _).
  set (hd := Some (Header 0 (u16 TAG_VECTOR) SCAN_FSIZE_MAX false)).
  destruct k as [| k].
  { rewrite bind_eq. unfold store_field. unfold w1. rewrite heap_poke.
    cbn [fields length replicate].
    destruct (decide (large_length < 1)%nat) as [Hbad | _];
      [unfold large_length in Hbad; lia | reflexivity]. }
  assert (H1 : heap w1 !! p
               = Some (Block hd (Some (box_enum (uintx (1 + n))) :: None
                                   :: replicate k None)))
    by apply heap_poke.
  rewrite (bind_Ret _ _ _ _ _
             (store_field_on _ _ _ _ large_length (box_enum n) H1
                ltac:(unfold large_length; cbn [length]; lia))).
  cbn [large_length insert list_insert]. rewrite bind_eq.
  change (fun i => store_field p (large_vec i) def)
    with (fun i => store_field p (2 + i)%nat def).
  rewrite (for_range_overrun p 2 def (Z.to_nat n) 0%nat _ hd
             (Some (box_enum (uintx (1 + n))) :: Some (box_enum n) :: replicate k None)
             (heap_poke _ _ _)).
  - reflexivity.
  - cbn [length]. lia.
  - cbn [length]. rewrite length_replicate. lia.
Qed.

End Runtime.

(** * Worked instances

    The properties above on the sample heap, for a 64-bit platform. *)

Lemma dup_then_drop_restores_header_witness :
  exists w',
    (dup_block 64 ;; drop_block Sample.block_free 64) (Sample.world_with 2147483647)
    = Ret tt w' /\
    heap w' = heap (Sample.world_with 2147483647) /\
    block_at w' 64 (Header 2147483647 TAG_FUNCTION 1 false) [Some 128].
Proof.
  apply (dup_then_drop_restores_header Sample.block_free
           (Sample.world_with 2147483647) 64
           (Header 2147483647 TAG_FUNCTION 1 false) [Some 128]).
  - reflexivity.
  - unfold is_u32. cbn [refcount]. lia.
  - cbn [refcount]. vm_compute. discriminate.
Defined.

Lemma charge_conservation_witness :
  (times 3 (dup_block 64) ;; times 3 (drop_block Sample.block_free 64) ;;
   drop_block Sample.block_free 64) (Sample.world_with 0)
  = block_check_free Sample.block_free 64 (Sample.world_with 0)
  /\ (times 3 (dup_block 64) ;; times 2 (drop_block Sample.block_free 64))
       (Sample.world_with 0)
     = Ret tt (poke 64 (Sample.closure 1) (Sample.world_with 0)).
Proof.
  destruct (charge_conservation Sample.block_free (Sample.world_with 0) 64
              (Header 0 TAG_FUNCTION 1 false) [Some 128] 3)
    as (_ & Hk & Hlast & _).
  - reflexivity.
  - reflexivity.
  - vm_compute. reflexivity.
  - split; [exact Hlast |]. apply (Hk 2%nat). lia.
Defined.

Lemma block_release1_drops_field_iff_unique_witness :
  block_release1 Sample.block_free Sample.orphan_null_addr 64 128 (Sample.world_with 0)
  = (drop_boxed Sample.block_free 128 ;; orphan_block 64) (Sample.world_with 0)
  /\ exists w',
       drop_block Sample.block_free 64 (Sample.world_with 1) = Ret tt w' /\
       block_release1 Sample.block_free Sample.orphan_null_addr 64 128 (Sample.world_with 1)
       = Ret Sample.orphan_null_addr w' /\
       (calls w' = [] \/ calls w' = [call_block_check_free 64]).
Proof.
  split.
  - apply (block_release1_drops_field_iff_unique Sample.block_free
             Sample.orphan_null_addr (Sample.world_with 0) 64
             (Header 0 TAG_FUNCTION 1 false) [Some 128] 128).
    + reflexivity.
    + reflexivity.
  - apply (block_release1_drops_field_iff_unique Sample.block_free
             Sample.orphan_null_addr (Sample.world_with 1) 64
             (Header 1 TAG_FUNCTION 1 false) [Some 128] 128).
    + reflexivity.
    + cbn [refcount]. lia.
Defined.

(** C3, as the claim has it, fails.  The closure at 64 is shared (count 1)
    and its field points to the cell at 128 (count 2).  [block_release1]
    on the closure and that field returns [orphan_null()], lowers the
    count of the closure and nothing else: [drop_boxed] is not called and
    the cell keeps its count of 2, where a [drop_boxed] of the field
    lowers it to 1. *)
Lemma block_release1_shared_keeps_field :
  block_release1 Sample.block_free Sample.orphan_null_addr 64 128 (Sample.world_with 1)
  = Ret Sample.orphan_null_addr (poke 64 (Sample.closure 0) (Sample.world_with 1))
  /\ calls (poke 64 (Sample.closure 0) (Sample.world_with 1)) = []
  /\ heap (poke 64 (Sample.closure 0) (Sample.world_with 1)) !! 128
     = Some (Block (Some (Header 2 TAG_BOX 0 false)) [Some 7])
  /\ drop_boxed Sample.block_free 128 (Sample.world_with 1)
     = Ret tt (poke 128 (Block (Some (Header 1 TAG_BOX 0 false)) [Some 7])
                 (with_call (call_drop_boxed 128) (Sample.world_with 1)))
  /\ block_release1 Sample.block_free Sample.orphan_null_addr 64 128 (Sample.world_with 1)
     <> (drop_boxed Sample.block_free 128 ;; drop_block Sample.block_free 64 ;;
         ret Sample.orphan_null_addr) (Sample.world_with 1).
Proof.
  split; [vm_compute; reflexivity |].
  split; [reflexivity |].
  split; [vm_compute; reflexivity |].
  split; [vm_compute; reflexivity |].
  vm_compute. intros H. discriminate H.
Qed.

Lemma large_scan_fsize_roundtrip_witness :
  (block_large_init 8 64 24 100000 TAG_VECTOR ;; block_scan_fsize 64)
    (Sample.world_with 0)
  = Ret 100000
      (poke 64 (Block (Some (Header 0 (u16 TAG_VECTOR) SCAN_FSIZE_MAX false))
                      [Some (box_enum 8 100000)])
            (Sample.world_with 0))
  /\ block_scan_fsize 64 (Sample.world_with 0) = Ret 1 (Sample.world_with 0).
Proof.
  destruct (large_scan_fsize_roundtrip 8 (Sample.world_with 0) 64 24 TAG_VECTOR)
    as (_ & Hthree & Hinline & _).
  split.
  - apply (Hthree ltac:(lia) (Some (Header 0 TAG_FUNCTION 1 false)) (Some 128) []).
    + reflexivity.
    + right. right. reflexivity.
  - apply (Hinline (Header 0 TAG_FUNCTION 1 false) [Some 128]).
    + reflexivity.
    + vm_compute. reflexivity.
Defined.

Lemma block_release0_spec_witness :
  block_release0 Sample.block_free Sample.orphan_null_addr 64 (Sample.world_with 0)
  = Ret 64 (poke 64 (Block (Some header_zero) [Some 128]) (Sample.world_with 0))
  /\ exists w',
       drop_block Sample.block_free 64 (Sample.world_with 1) = Ret tt w' /\
       block_release0 Sample.block_free Sample.orphan_null_addr 64 (Sample.world_with 1)
       = Ret Sample.orphan_null_addr w'.
Proof.
  split.
  - apply (block_release0_spec Sample.block_free Sample.orphan_null_addr
             (Sample.world_with 0) 64 (Header 0 TAG_FUNCTION 1 false) [Some 128]).
    + reflexivity.
    + reflexivity.
  - apply (block_release0_spec Sample.block_free Sample.orphan_null_addr
             (Sample.world_with 1) 64 (Header 1 TAG_FUNCTION 1 false) [Some 128]).
    + reflexivity.
    + cbn [refcount]. lia.
Defined.

Lemma block_alloc_reuse_as_fresh_witness :
  block_alloc_reuse 8 true Sample.orphan_null_addr 64 24 1 TAG_REF (Sample.world_with 0)
  = Ret 64 (poke 64 (Block (Some (HEADER 1 TAG_REF)) [Some 128]) (Sample.world_with 0))
  /\ exists p w' fs',
       block_alloc 8 true 24 1 TAG_REF (Sample.world_with 0) = Ret p w' /\
       heap (Sample.world_with 0) !! p = None /\
       block_at w' p (HEADER 1 TAG_REF) fs' /\
       calls w' = [call_malloc 24 p].
Proof.
  destruct (block_alloc_reuse_as_fresh 8 true Sample.orphan_null_addr
              (Sample.world_with 0) 64 24 1 TAG_REF)
    as (Hreuse & _ & Hfresh & _).
  - unfold SCAN_FSIZE_MAX. lia.
  - vm_compute. split; discriminate.
  - split; [| apply Hfresh; vm_compute; discriminate].
    apply (Hreuse (Header 0 TAG_FUNCTION 1 false) [Some 128]).
    + vm_compute. discriminate.
    + reflexivity.
    + reflexivity.
Defined.

Lemma dup_drop_sign_test_witness :
  dup_block 64 (Sample.world_with 5) = Ret 64 (poke 64 (Sample.closure 6) (Sample.world_with 5))
  /\ drop_block Sample.block_free 64 (Sample.world_with 5)
     = Ret tt (poke 64 (Sample.closure 4) (Sample.world_with 5))
  /\ dup_block 64 (Sample.world_with 2147483648)
     = dup_block_check 64 (Sample.world_with 2147483648)
  /\ drop_block Sample.block_free 64 (Sample.world_with 2147483648)
     = block_check_free Sample.block_free 64 (Sample.world_with 2147483648).
Proof.
  destruct (dup_drop_sign_test Sample.block_free (Sample.world_with 5) 64
              (Header 5 TAG_FUNCTION 1 false) [Some 128])
    as (Hdup & _ & Hdrop & _).
  - reflexivity.
  - unfold is_u32. cbn [refcount]. lia.
  - destruct (dup_drop_sign_test Sample.block_free (Sample.world_with 2147483648) 64
                (Header 2147483648 TAG_FUNCTION 1 false) [Some 128])
      as (_ & Hdup' & _ & Hdrop').
    + reflexivity.
    + unfold is_u32. cbn [refcount]. lia.
    + split; [apply Hdup; vm_compute; discriminate |].
      split; [apply Hdrop; vm_compute; reflexivity |].
      split; [apply Hdup'; vm_compute; reflexivity |].
      apply Hdrop'; vm_compute; discriminate.
Defined.

Lemma tag_is_raw_exactly_raw_tags_witness :
  (tag_is_raw 8 TAG_STRING = false <->
     TAG_STRING <> TAG_CPTR_RAW 8 /\ TAG_STRING <> TAG_STRING_RAW 8
     /\ TAG_STRING <> TAG_BYTES_RAW 8)
  /\ (tag_is_raw 4 (TAG_BYTES_RAW 4) = true <->
     TAG_BYTES_RAW 4 = TAG_CPTR_RAW 4 \/ TAG_BYTES_RAW 4 = TAG_STRING_RAW 4
     \/ TAG_BYTES_RAW 4 = TAG_BYTES_RAW 4).
Proof.
  split.
  - destruct (tag_is_raw_exactly_raw_tags 8 TAG_STRING) as [_ Hfalse].
    + vm_compute. split; [discriminate | reflexivity].
    + exact Hfalse.
  - destruct (tag_is_raw_exactly_raw_tags 4 (TAG_BYTES_RAW 4)) as [Htrue _].
    + vm_compute. split; [discriminate | reflexivity].
    + exact Htrue.
Defined.

Lemma vector_alloc_254_breaks_scan_count_witness :
  vector_alloc 8 true Sample.vector_empty_addr 0 254 7 (Sample.world_with 0) = Abort
  /\ exists p w' fs,
       vector_alloc 8 false Sample.vector_empty_addr 0 254 7 (Sample.world_with 0)
       = Ret p w' /\
       block_at w' p (Header 0 TAG_VECTOR_SMALL SCAN_FSIZE_MAX false) fs /\
       length fs = 255%nat /\
       block_scan_fsize p w' = Ret 254 w'.
Proof.
  split.
  - apply (vector_alloc_254_breaks_scan_count 8 true Sample.vector_empty_addr 0
             (Sample.world_with 0) 7).
    + right. reflexivity.
    + reflexivity.
  - apply (vector_alloc_254_breaks_scan_count 8 false Sample.vector_empty_addr 0
             (Sample.world_with 0) 7).
    + right. reflexivity.
    + reflexivity.
Defined.

(** ** Instances of the further properties *)

Lemma dup_drop_sequences_witness :
  run_ops Sample.block_free 64 [op_dup; op_drop; op_drop; op_dup; op_dup]
    (Sample.world_with 1)
  = Ret tt (poke 64 (Sample.closure 2) (Sample.world_with 1))
  /\ 2 = 1 + net_dups [op_dup; op_drop; op_drop; op_dup; op_dup].
Proof.
  apply (dup_drop_sequences Sample.block_free
           [op_dup; op_drop; op_drop; op_dup; op_dup]
           (Sample.world_with 1) 64 (Header 1 TAG_FUNCTION 1 false) [Some 128] 2).
  - reflexivity.
  - cbn [refcount]. lia.
  - vm_compute. reflexivity.
Defined.

Lemma release0_then_reuse_witness :
  (o ← block_release0 Sample.block_free Sample.orphan_null_addr 64;
   block_alloc_reuse 8 true Sample.orphan_null_addr o 24 1 TAG_REF)
    (Sample.world_with 0)
  = Ret 64 (poke 64 (Block (Some (HEADER 1 TAG_REF)) [Some 128]) (Sample.world_with 0))
  /\ exists w1,
       drop_block Sample.block_free 64 (Sample.world_with 3) = Ret tt w1 /\
       (o ← block_release0 Sample.block_free Sample.orphan_null_addr 64;
        block_alloc_reuse 8 true Sample.orphan_null_addr o 24 1 TAG_REF)
         (Sample.world_with 3)
       = block_alloc 8 true 24 1 TAG_REF w1.
Proof.
  split.
  - apply (release0_then_reuse 8 true Sample.block_free Sample.orphan_null_addr
             (Sample.world_with 0) 64 (Header 0 TAG_FUNCTION 1 false) [Some 128]
             24 1 TAG_REF).
    + reflexivity.
    + unfold SCAN_FSIZE_MAX. lia.
    + vm_compute. split; discriminate.
    + reflexivity.
    + vm_compute. discriminate.
  - apply (release0_then_reuse 8 true Sample.block_free Sample.orphan_null_addr
             (Sample.world_with 3) 64 (Header 3 TAG_FUNCTION 1 false) [Some 128]
             24 1 TAG_REF).
    + reflexivity.
    + unfold SCAN_FSIZE_MAX. lia.
    + vm_compute. split; discriminate.
    + cbn [refcount]. lia.
Defined.

Lemma release0_then_no_reuse_witness :
  (o ← block_release0 Sample.block_free Sample.orphan_null_addr 64;
   block_no_reuse Sample.orphan_null_addr o) (Sample.world_with 0)
  = Ret tt (World (delete 64 (heap (Sample.world_with 0))) [call_free 64])
  /\ (o ← block_release0 Sample.block_free Sample.orphan_null_addr 64;
      block_no_reuse Sample.orphan_null_addr o) (Sample.world_with 3)
     = drop_block Sample.block_free 64 (Sample.world_with 3).
Proof.
  split.
  - apply (release0_then_no_reuse Sample.block_free Sample.orphan_null_addr
             (Sample.world_with 0) 64 (Header 0 TAG_FUNCTION 1 false) [Some 128]).
    + reflexivity.
    + reflexivity.
    + vm_compute. discriminate.
  - apply (release0_then_no_reuse Sample.block_free Sample.orphan_null_addr
             (Sample.world_with 3) 64 (Header 3 TAG_FUNCTION 1 false) [Some 128]).
    + reflexivity.
    + cbn [refcount]. lia.
Defined.

Lemma ref_alloc_then_swap_witness :
  exists p,
    heap (Sample.world_with 0) !! p = None /\
    ref_alloc 8 true 11 (Sample.world_with 0)
    = Ret p (poke p (Block (Some (Header 0 TAG_REF 1 false)) [Some 11])
                  (with_call (call_malloc (sizeof_ref_s 8) p) (Sample.world_with 0))) /\
    (r ← ref_alloc 8 true 11; ref_swap r 15) (Sample.world_with 0)
    = Ret 11 (poke p (Block (Some (Header 0 TAG_REF 1 false)) [Some 15])
                   (with_call (call_malloc (sizeof_ref_s 8) p) (Sample.world_with 0))).
Proof.
  apply (ref_alloc_then_swap 8 true (Sample.world_with 0) 11 15). lia.
Defined.

Lemma ref_swap_involutive_witness :
  ref_swap 64 7 (Sample.world_with 1)
  = Ret 128 (poke 64 (Block (Some (Header 1 TAG_FUNCTION 1 false)) [Some 7])
               (Sample.world_with 1))
  /\ (x ← ref_swap 64 7; ref_swap 64 x) (Sample.world_with 1)
     = Ret 7 (Sample.world_with 1).
Proof.
  apply (ref_swap_involutive (Sample.world_with 1) 64
           (Some (Header 1 TAG_FUNCTION 1 false)) 128 [] 7).
  reflexivity.
Defined.

Lemma ref_set_then_get_witness :
  ref_set Sample.block_free 64 7 (Sample.world_with 1)
  = Ret Unit
      (poke 64 (Block (Some (Header 1 TAG_FUNCTION 1 false)) [Some 7])
         (poke 128 (Block (Some (Header 1 TAG_BOX 0 false)) [Some 7])
            (with_call (call_drop_boxed 128) (Sample.world_with 1))))
  /\ (ref_set Sample.block_free 64 7 ;; ref_get 64) (Sample.world_with 1)
     = dup_boxed 7
         (poke 64 (Block (Some (Header 1 TAG_FUNCTION 1 false)) [Some 7])
            (poke 128 (Block (Some (Header 1 TAG_BOX 0 false)) [Some 7])
               (with_call (call_drop_boxed 128) (Sample.world_with 1)))).
Proof.
  apply (ref_set_then_get Sample.block_free (Sample.world_with 1)
           (poke 128 (Block (Some (Header 1 TAG_BOX 0 false)) [Some 7])
              (with_call (call_drop_boxed 128) (Sample.world_with 1)))
           64 (Some (Header 1 TAG_FUNCTION 1 false)) 128 [] 7).
  - reflexivity.
  - vm_compute. reflexivity.
  - vm_compute. reflexivity.
Defined.

Lemma value_tag_direct_and_injective_witness :
  Z.land (value_tag 8 TAG_REF) 3 = 3
  /\ value_tag 8 TAG_REF <> value_tag 8 TAG_BOX.
Proof.
  destruct (value_tag_direct_and_injective 8) as [Hlow Hinj].
  split; [apply (Hlow TAG_REF) |].
  intros E.
  assert (H1 : 0 <= TAG_REF < 2 ^ (word_bits 8 - 2))
    by (vm_compute; split; [discriminate | reflexivity]).
  assert (H2 : 0 <= TAG_BOX < 2 ^ (word_bits 8 - 2))
    by (vm_compute; split; [discriminate | reflexivity]).
  pose proof (Hinj TAG_REF TAG_BOX H1 H2 E) as Heq.
  discriminate Heq.
Defined.

Lemma marker_unique_fresh_witness :
  markers 3 (Context 0 0 0 (Yield 0 0 0 []) 5 0 0 0 0 0)
  = Some ([5; 6; 7], Context 0 0 0 (Yield 0 0 0 []) 8 0 0 0 0 0)
  /\ NoDup [5; 6; 7]
  /\ marker_unique (Context 0 0 0 (Yield 0 0 0 []) 2147483647 0 0 0 0 0) = None.
Proof.
  destruct (marker_unique_fresh 3 (Context 0 0 0 (Yield 0 0 0 []) 5 0 0 0 0 0))
    as [Hrun _].
  destruct Hrun as [Hms Hnodup].
  - vm_compute. reflexivity.
  - split; [exact Hms |]. split; [exact Hnodup |].
    apply (marker_unique_fresh 0 (Context 0 0 0 (Yield 0 0 0 []) 2147483647 0 0 0 0 0)).
    reflexivity.
Defined.

Lemma vector_alloc_frame_witness :
  exists p w' sz,
    vector_alloc 8 true Sample.vector_empty_addr 0 3 128 (Sample.world_with 1)
    = Ret p w' /\
    heap (Sample.world_with 1) !! p = None /\
    heap w' !! 128 = Some Sample.cell /\
    calls w' = [call_malloc sz p].
Proof.
  destruct (vector_alloc_frame 8 true Sample.vector_empty_addr 0
              (Sample.world_with 1) 3 128)
    as (p & w' & sz & E & Hfresh & Hframe & Hcalls).
  - right. reflexivity.
  - lia.
  - right. lia.
  - vm_compute. reflexivity.
  - exists p, w', sz. split; [exact E |]. split; [exact Hfresh |].
    split; [| exact Hcalls].
    transitivity (heap (Sample.world_with 1) !! 128); [| reflexivity].
    apply Hframe. intros <-. vm_compute in Hfresh. discriminate Hfresh.
Defined.

Lemma vector_alloc_elements_witness :
  exists p w',
    vector_alloc 8 true Sample.vector_empty_addr 0 3 128 (Sample.world_with 1)
    = Ret p w' /\
    vector_at true false p 2 w' = dup_boxed 128 w'.
Proof.
  destruct (vector_alloc_elements 8 true Sample.vector_empty_addr 0 false
              (Sample.world_with 1) 3 128)
    as (p & w' & E & Hin & _).
  - right. reflexivity.
  - lia.
  - right. lia.
  - vm_compute. reflexivity.
  - exists p, w'. split; [exact E |]. apply Hin; [discriminate | lia].
Defined.

Lemma vector_at_past_the_end_witness :
  exists p w',
    vector_alloc 8 true Sample.vector_empty_addr 0 3 128 (Sample.world_with 1)
    = Ret p w' /\
    vector_at true false p 3 w' = Abort /\
    vector_at true true p 3 w' = Undef.
Proof.
  destruct (vector_at_past_the_end 8 true Sample.vector_empty_addr 0 false
              (Sample.world_with 1) 3 128)
    as (p & w' & E & Hout).
  - right. reflexivity.
  - lia.
  - right. lia.
  - vm_compute. reflexivity.
  - destruct (vector_at_past_the_end 8 true Sample.vector_empty_addr 0 true
                (Sample.world_with 1) 3 128)
      as (p' & w'' & E' & Hout').
    + right. reflexivity.
    + lia.
    + right. lia.
    + vm_compute. reflexivity.
    + exists p, w'. split; [exact E |]. split; [apply Hout; lia |].
      rewrite E in E'. injection E' as <- <-. apply Hout'. lia.
Defined.

Lemma vector_alloc_accessors_witness :
  exists p w',
    vector_alloc 8 true Sample.vector_empty_addr 0 300 7 (Sample.world_with 1)
    = Ret p w' /\
    vector_len true p w' = Ret 300 w' /\
    block_scan_fsize p w' = Ret 301 w' /\
    block_is_unique p w' = Ret true w' /\
    block_tag p w' = Ret TAG_VECTOR w'.
Proof.
  apply (vector_alloc_accessors 8 true Sample.vector_empty_addr 0
           (Sample.world_with 1) 300 7).
  - right. reflexivity.
  - lia.
  - lia.
  - vm_compute. reflexivity.
Defined.

Lemma vector_tag_checks_witness :
  unbox_vector_t true (box_ptr Sample.vector_empty_addr) (Sample.world_with 1)
  = Ret Sample.vector_empty_addr (Sample.world_with 1)
  /\ unbox_vector_t true (box_ptr 64) (Sample.world_with 1) = Abort
  /\ vector_len true 64 (Sample.world_with 1) = Abort
  /\ vector_buf true 64 false (Sample.world_with 1) = Abort
  /\ unbox_vector_t false (box_ptr 64) (Sample.world_with 1)
     = Ret 64 (Sample.world_with 1).
Proof.
  destruct (vector_tag_checks true (Sample.world_with 1) Sample.vector_empty_addr
              (Header 0xFF00 TAG_VECTOR 0 false) [Some 3; Some 3] eq_refl)
    as [Hvec _].
  destruct (vector_tag_checks true (Sample.world_with 1) 64
              (Header 1 TAG_FUNCTION 1 false) [Some 128] eq_refl)
    as [_ Hon].
  destruct (vector_tag_checks false (Sample.world_with 1) 64
              (Header 1 TAG_FUNCTION 1 false) [Some 128] eq_refl)
    as [_ Hoff].
  destruct Hon as [Hon _]; [vm_compute; discriminate | vm_compute; discriminate |].
  destruct Hoff as [_ Hoff]; [vm_compute; discriminate | vm_compute; discriminate |].
  destruct (Hon eq_refl) as (H1 & H2 & H3).
  split; [apply Hvec; right; reflexivity |].
  split; [exact H1 |]. split; [exact H2 |]. split; [exact H3 |].
  apply Hoff. reflexivity.
Defined.

Lemma block_large_alloc_needs_room_witness :
  block_large_alloc 8 8 300 TAG_VECTOR (Sample.world_with 1) = Undef.
Proof.
  apply (block_large_alloc_needs_room 8 (Sample.world_with 1) 8 300 TAG_VECTOR).
  - right. reflexivity.
  - lia.
  - vm_compute. reflexivity.
Defined.

Lemma vector_alloc_size_overflow_witness :
  vector_alloc 4 true Sample.vector_empty_addr 0 1073741824 7 (Sample.world_with 1)
  = Undef.
Proof.
  apply (vector_alloc_size_overflow 4 true Sample.vector_empty_addr 0
           (Sample.world_with 1) 1073741824 7).
  - vm_compute. discriminate.
  - vm_compute. discriminate.
  - vm_compute. reflexivity.
Defined.
